(** * The booking queue of app.py: model and verification

    The program is a Flask application on top of two MongoDB collections:
    [bookings_col] (one document per booking) and [updates_col] (one marker
    document per change notification).  The request handlers [search] and
    [complete] move bookings through the statuses waiting, in_progress and
    completed; [compute_stats] reads the queue.

    The model keeps the shape of the source: documents are dictionaries
    from field names to dynamically typed values, a collection is the list
    of its documents in natural (insertion) order, and every handler is a
    program in a small state monad over the two collections, written with
    the same store calls in the same order as the Python code.

    Values are the scalar BSON values; arrays and embedded documents do
    not occur.  Store calls succeed.  A text is kept as a [string]; the
    methods [str.strip] and [str.upper] of the Python library are taken as
    they are, as the two methods of [StrMethods].  The clock is read
    several times while one request is served: a handler takes a [Clock],
    which holds one reading for every place where the source calls
    [datetime.now]. *)

From Stdlib Require Import ZArith List Ascii String Permutation Sorted.
From stdpp Require Import gmap strings list fin_maps.

Open Scope string_scope.
Open Scope list_scope.
Open Scope Z_scope.

(** ** Values and documents *)

(** A BSON ObjectId is twelve bytes, read here as one 96-bit big-endian
    number.  Its four leading bytes are the creation time in seconds. *)
Definition ObjectId := Z.

Definition generation_time (o : ObjectId) : Z := Z.shiftr o 64 * 1000.

(** Instants are milliseconds since the epoch, in UTC (the resolution of a
    BSON date).  The driver hands stored dates back as naive datetimes in
    UTC, so attaching [tzinfo=utc] to them does not move the instant. *)
Inductive Value :=
  | VNull
  | VBool (b : bool)
  | VInt (n : Z)
  | VStr (s : string)
  | VDate (t : Z)
  | VOid (o : ObjectId).

#[global] Instance Value_eq_dec : EqDecision Value.
Proof. solve_decision. Defined.

(** A document always carries [_id]; every other field may be absent. *)
Record Doc := mkDoc { _id : Value; fields : gmap string Value }.

#[global] Instance Doc_eq_dec : EqDecision Doc.
Proof. solve_decision. Defined.

(** [doc.get(k)] for a field other than [_id]. *)
Definition get (k : string) (d : Doc) : option Value := fields d !! k.

(** [{"$set": upd}] applied to one document, and [doc.update(upd)] on the
    local copy: the listed fields are written, the others kept.  The
    source never lists [_id]. *)
Definition set_fields (upd : gmap string Value) (d : Doc) : Doc :=
  mkDoc (_id d) (upd ∪ fields d).

(** Python truthiness, as used by [if created:]. *)
Definition truthy (v : Value) : bool :=
  match v with
  | VNull => false
  | VBool b => b
  | VInt n => negb (Z.eqb n 0)
  | VStr s => negb (String.eqb s "")
  | VDate _ => true
  | VOid _ => true
  end.

(** ** Queries *)

Inductive Cond :=
  | IdIs (v : Value)                    (* {"_id": v} *)
  | FieldIs (k : string) (v : Value)    (* {k: v} *)
  | FieldGte (k : string) (t : Z).      (* {k: {"$gte": t}}, t a date *)

Definition holds (c : Cond) (d : Doc) : bool :=
  match c with
  | IdIs v => bool_decide (_id d = v)
  | FieldIs k v => bool_decide (get k d = Some v)
  | FieldGte k t =>
      match get k d with
      | Some (VDate u) => Z.leb t u
      | _ => false
      end
  end.

(** A filter document is the conjunction of its conditions. *)
Definition Query := list Cond.

Definition matches (q : Query) (d : Doc) : bool := forallb (fun c => holds c d) q.

(** ** The store and its monad *)

(** [updates] holds the [ts] of each marker document, in insertion order. *)
Record World := mkWorld { bookings : list Doc; updates : list Z }.

Definition M (A : Type) : Type := World -> A * World.

#[global] Instance M_ret : MRet M := fun A (a : A) w => (a, w).

#[global] Instance M_bind : MBind M :=
  fun A B (k : A -> M B) (m : M A) w => let (a, w') := m w in k a w'.

Definition result {A} (m : M A) (w : World) : A := fst (m w).
Definition after {A} (m : M A) (w : World) : World := snd (m w).

(** [bookings_col.find(q)] *)
Definition find (q : Query) : M (list Doc) :=
  fun w => (List.filter (matches q) (bookings w), w).

(** [bookings_col.find_one(q)]: the first match in natural order. *)
Definition find_one (q : Query) : M (option Doc) :=
  fun w => (List.find (matches q) (bookings w), w).

(** [bookings_col.count_documents(q)] *)
Definition count_documents (q : Query) : M nat :=
  fun w => (length (List.filter (matches q) (bookings w)), w).

(** The first document matching [q] is rewritten, the rest kept; the
    number returned is [matched_count]. *)
Fixpoint update_first (q : Query) (upd : gmap string Value) (l : list Doc)
  : nat * list Doc :=
  match l with
  | [] => (0%nat, [])
  | d :: r =>
      if matches q d then (1%nat, set_fields upd d :: r)
      else let (n, r') := update_first q upd r in (n, d :: r')
  end.

(** [bookings_col.update_one(q, {"$set": upd})] *)
Definition update_one (q : Query) (upd : gmap string Value) : M nat :=
  fun w =>
    let (n, l) := update_first q upd (bookings w) in
    (n, mkWorld l (updates w)).

(** [updates_col.insert_one({"ts": t})] *)
Definition insert_update (t : Z) : M unit :=
  fun w => (tt, mkWorld (bookings w) (updates w ++ [t])).

(** [updates_col.find_one(sort=[("ts", -1)])]: the marker with the
    greatest [ts], if there is one. *)
Definition find_latest_update : M (option Z) :=
  fun w =>
    (match updates w with
     | [] => None
     | t :: r => Some (fold_left Z.max r t)
     end, w).

(** ** Strings *)

(** The two methods of [str] that [search] calls on the code of a
    request, [s.strip()] and [s.upper()].  All that is used of them is
    what they do to the empty text. *)
Class StrMethods := {
  str_strip : string -> string;
  str_upper : string -> string;
  strip_empty : str_strip "" = "";
  upper_empty : str_upper "" = ""
}.

(** What the two methods do on a text of ASCII characters, for the
    requests of the examples.  [str.strip()] removes, among the ASCII
    characters, tab to carriage return, the four separators 28..31 and
    the space. *)
Definition is_space (c : ascii) : bool :=
  let n := nat_of_ascii c in
  ((9 <=? n) && (n <=? 13) || (28 <=? n) && (n <=? 32))%nat.

Fixpoint lstrip (s : string) : string :=
  match s with
  | EmptyString => EmptyString
  | String c r => if is_space c then lstrip r else s
  end.

Fixpoint rstrip (s : string) : string :=
  match s with
  | EmptyString => EmptyString
  | String c r =>
      match rstrip r with
      | EmptyString => if is_space c then EmptyString else String c EmptyString
      | r' => String c r'
      end
  end.

Definition strip_ascii (s : string) : string := rstrip (lstrip s).

Definition upper_char (c : ascii) : ascii :=
  let n := nat_of_ascii c in
  if ((97 <=? n) && (n <=? 122))%nat then ascii_of_nat (n - 32) else c.

Fixpoint upper_ascii (s : string) : string :=
  match s with
  | EmptyString => EmptyString
  | String c r => String (upper_char c) (upper_ascii r)
  end.

Definition ascii_methods : StrMethods :=
  {| str_strip := strip_ascii; str_upper := upper_ascii;
     strip_empty := eq_refl; upper_empty := eq_refl |}.

(** The text of an ObjectId made of 24 hexadecimal digits, for the
    requests of the examples.  [bson.ObjectId] reads a few more texts;
    the handlers are stated for any parser. *)
Definition hex_digit (c : ascii) : option Z :=
  let n := nat_of_ascii c in
  if ((48 <=? n) && (n <=? 57))%nat then Some (Z.of_nat (n - 48))
  else if ((97 <=? n) && (n <=? 102))%nat then Some (Z.of_nat (n - 87))
  else if ((65 <=? n) && (n <=? 70))%nat then Some (Z.of_nat (n - 55))
  else None.

Fixpoint hex_value (acc : Z) (s : string) : option Z :=
  match s with
  | EmptyString => Some acc
  | String c r =>
      match hex_digit c with
      | Some v => hex_value (16 * acc + v) r
      | None => None
      end
  end.

Definition ObjectId_of_hex (s : string) : option ObjectId :=
  if Nat.eqb (String.length s) 24 then hex_value 0 s else None.

(** ** Sorting *)

Section Sorted.
Context {A : Type} (key : A -> Z).

Fixpoint insert_sorted (x : A) (l : list A) : list A :=
  match l with
  | [] => [x]
  | y :: r => if Z.leb (key x) (key y) then x :: y :: r else y :: insert_sorted x r
  end.

(** [sorted(l, key=key)]: ascending and stable, so among documents with
    equal keys the one that comes first in [l] stays first. *)
Definition sorted (l : list A) : list A := fold_right insert_sorted [] l.
End Sorted.

(** ** The clock *)

(** The readings of [datetime.now(timezone.utc)] while one request is
    served, one for each place of the source that reads the clock.  The
    [except] branch of [_sort_key_by_created_or_oid] reads it once for
    each document that takes the branch: [at_key i] is the reading for
    the document at position [i] of the list a handler sorts to find the
    next booking, [at_stats_key i] the one for the list [compute_stats]
    sorts. *)
Record Clock := mkClock {
  at_default : Z;           (* ensure_defaults, line 65 *)
  at_key : nat -> Z;        (* _sort_key_by_created_or_oid, line 57 *)
  at_start : Z;             (* search, line 146 *)
  at_notify : Z;            (* notify_update, line 37 *)
  at_complete : Z;          (* complete, line 159 *)
  at_stats_key : nat -> Z;  (* line 57, called from compute_stats *)
  at_today : Z              (* compute_stats, line 77 *)
}.

(** ** Helpers of app.py *)

Definition DEPT_SERVICE_TIME : gmap string Z :=
  <["Emergency" := 3]> (<["Fever" := 2]> (<["Headache" := 5]> (<["General" := 10]>
  (<["General Medicine" := 8]> (<["Cardiology" := 15]> ∅))))).

(** [DEPT_SERVICE_TIME.get(dept, 10)]: only a string can be a key. *)
Definition service_time (dept : Value) : Z :=
  match dept with
  | VStr s => default 10 (DEPT_SERVICE_TIME !! s)
  | _ => 10
  end.

(** [notify_update()].  The source swallows a failing insert; the store of
    the model does not fail. *)
Definition notify_update (now : Z) : M unit := insert_update now.

(** [get_latest_update_ts()]: the epoch when there is no marker. *)
Definition get_latest_update_ts : M Z :=
  last ← find_latest_update;
  mret (match last with Some ts => ts | None => 0 end).

(** [_sort_key_by_created_or_oid(doc)].  A truthy [created_at] that is not
    a datetime, and an [_id] that is not an ObjectId, raise inside the
    [try]; the handler answers with the current time. *)
Definition _sort_key_by_created_or_oid (now : Z) (doc : Doc) : Z :=
  let by_oid :=
    match _id doc with
    | VOid o => generation_time o
    | _ => now
    end in
  match get "created_at" doc with
  | Some created =>
      if truthy created then
        match created with
        | VDate t => t
        | _ => now
        end
      else by_oid
  | None => by_oid
  end.

(** The keys [sorted] computes, one for each document in turn. *)
Fixpoint keyed (readings : nat -> Z) (i : nat) (l : list Doc) : list (Z * Doc) :=
  match l with
  | [] => []
  | d :: r => (_sort_key_by_created_or_oid (readings i) d, d) :: keyed readings (S i) r
  end.

(** [sorted(l, key=_sort_key_by_created_or_oid)] *)
Definition sorted_docs (readings : nat -> Z) (l : list Doc) : list Doc :=
  map snd (sorted fst (keyed readings 0 l)).

(** [ensure_defaults(doc_id, doc)]: the stored document is updated and
    the local copy with it; the local copy is returned. *)
Definition ensure_defaults (now : Z) (doc_id : Value) (doc : Doc) : M Doc :=
  let update_fields : gmap string Value := ∅ in
  let update_fields :=
    if decide (get "status" doc = None)
    then <["status" := VStr "waiting"]> update_fields else update_fields in
  let update_fields :=
    if decide (get "created_at" doc = None)
    then <["created_at" := VDate now]> update_fields else update_fields in
  if decide (update_fields = ∅) then mret doc
  else
    _ ← update_one [IdIs doc_id] update_fields;
    mret (set_fields update_fields doc).

(** The ["in_progress"] entry of the statistics, and one entry of the
    ["waiting"] list, which adds the position [sno].  The source renders
    [_id] with [str]; the model keeps the value. *)
Record Entry := mkEntry {
  entry_id : Value;
  name : option Value;
  department : option Value;
  booking_id : option Value
}.

Record Row := mkRow { sno : nat; entry : Entry }.

Definition entry_of (a : Doc) : Entry :=
  mkEntry (_id a) (get "patient_name" a) (get "department" a) (get "booking_id" a).

Record Stats := mkStats {
  queue_length : nat;
  estimated_wait_min : Z;
  completed_today : nat;
  waiting : list Row;
  in_progress : option Entry;
  service_time_map : gmap string Z;
  latest_update_ts : Z
}.

Definition day_ms : Z := 86400000.

(** [t.replace(hour=0, minute=0, second=0, microsecond=0)] on a UTC instant *)
Definition day_start (t : Z) : Z := t - t mod day_ms.

Definition q_status (s : string) : Query := [FieldIs "status" (VStr s)].

(** [compute_stats()] *)
Definition compute_stats (c : Clock) : M Stats :=
  waiting_docs ← find (q_status "waiting");
  let waiting_sorted := sorted_docs (at_stats_key c) waiting_docs in
  in_progress ← find_one (q_status "in_progress");
  let today_start := day_start (at_today c) in
  completed_today ← count_documents
    [FieldIs "status" (VStr "completed"); FieldGte "completed_at" today_start];
  let queue_len := length waiting_sorted in
  let total_min := 0 in
  let total_min :=
    match in_progress with
    | Some d => total_min + service_time (default (VStr "General") (get "department" d))
    | None => total_min
    end in
  let total_min :=
    fold_left
      (fun acc appt => acc + service_time (default (VStr "General") (get "department" appt)))
      waiting_sorted total_min in
  let waiting_list :=
    imap (fun idx a => mkRow (idx + 1) (entry_of a)) waiting_sorted in
  let in_prog :=
    match in_progress with
    | Some d => Some (entry_of d)
    | None => None
    end in
  latest ← get_latest_update_ts;
  mret (mkStats queue_len total_min completed_today waiting_list in_prog
                DEPT_SERVICE_TIME latest).

(** ** Routes *)

(** What a handler answers: a JSON body with status 200, an error body
    with its status code, or an exception that nothing catches. *)
Inductive Response (A : Type) :=
  | Ok (a : A)
  | Error (code : nat) (msg : string)
  | Uncaught.

Arguments Ok {A} a.
Arguments Error {A} code msg.
Arguments Uncaught {A}.

Definition promoted (now : Z) : gmap string Value :=
  <["status" := VStr "in_progress"]> (<["started_at" := VDate now]> ∅).

Section Search.

Context {methods : StrMethods}.

(** [search()], on the parsed body of the request: [None] for a body that
    is JSON null, [Some obj] for a JSON object.  An empty object is falsy.
    A [booking_id] that is not a string has no [strip]. *)
Definition search (c : Clock) (data : option (gmap string Value)) : M (Response Value) :=
  match data with
  | None => mret (Error 400 "No JSON received")
  | Some obj =>
      if decide (obj = ∅) then mret (Error 400 "No JSON received")
      else
        match default (VStr "") (obj !! "booking_id") with
        | VStr raw =>
            let booking_id := str_upper (str_strip raw) in
            if decide (booking_id = "") then mret (Error 400 "Booking ID required")
            else
              doc ← find_one [FieldIs "booking_id" (VStr booking_id)];
              match doc with
              | None => mret (Error 404 "Not found")
              | Some doc =>
                  doc ← ensure_defaults (at_default c) (_id doc) doc;
                  n ← count_documents (q_status "in_progress");
                  _ ← (if decide (n = 0%nat) then
                         waiting_docs ← find (q_status "waiting");
                         match sorted_docs (at_key c) waiting_docs with
                         | oldest :: _ =>
                             _ ← update_one [IdIs (_id oldest)] (promoted (at_start c));
                             mret tt
                         | [] => mret tt
                         end
                       else mret tt);
                  _ ← notify_update (at_notify c);
                  mret (Ok (_id doc))
              end
        | _ => mret Uncaught
        end
  end.

End Search.

Inductive Request :=
  | ReqSearch (c : Clock) (data : option (gmap string Value))
  | ReqComplete (c : Clock) (id : string)
  | ReqStats (c : Clock).

Section Complete.

Context {methods : StrMethods}.

(** [ObjectId(id)] on the text of the URL: the identifier, or [None]
    where the constructor raises. *)
Variable ObjectId_of_str : string -> option ObjectId.

(** [complete(id)]: [now] of the source is the reading [at_complete]. *)
Definition complete (c : Clock) (id : string) : M (Response Stats) :=
  match ObjectId_of_str id with
  | None => mret (Error 400 "Invalid ID")
  | Some oid =>
      matched_count ← update_one
        [IdIs (VOid oid); FieldIs "status" (VStr "in_progress")]
        (<["status" := VStr "completed"]> (<["completed_at" := VDate (at_complete c)]> ∅));
      if decide (matched_count = 0%nat)
      then mret (Error 404 "No in-progress appointment with that ID")
      else
        waiting_docs ← find (q_status "waiting");
        _ ← match sorted_docs (at_key c) waiting_docs with
            | next_wait :: _ =>
                _ ← update_one [IdIs (_id next_wait)] (promoted (at_complete c));
                mret tt
            | [] => mret tt
            end;
        _ ← notify_update (at_notify c);
        stats ← compute_stats c;
        mret (Ok stats)
  end.

(** The store after one request, and after a sequence of requests. *)
Definition handle (w : World) (r : Request) : World :=
  match r with
  | ReqSearch c data => after (search c data) w
  | ReqComplete c id => after (complete c id) w
  | ReqStats c => after (compute_stats c) w
  end.

Definition serve (rs : list Request) (w : World) : World := fold_left handle rs w.

End Complete.

(** ** Observations on a store *)

Definition status_is (s : string) (d : Doc) : Prop := get "status" d = Some (VStr s).

(** The document an [_id] names: the first one that carries it. *)
Definition lookup_id (i : Value) (w : World) : option Doc :=
  List.find (matches [IdIs i]) (bookings w).

Definition waiting_docs (w : World) : list Doc :=
  List.filter (matches (q_status "waiting")) (bookings w).

Definition count_in_progress (w : World) : nat :=
  length (List.filter (matches (q_status "in_progress")) (bookings w)).

(** At most one booking is in progress. *)
Definition single_server (w : World) : Prop := (count_in_progress w <= 1)%nat.

(** MongoDB keeps [_id] unique within a collection. *)
Definition unique_ids (w : World) : Prop := NoDup (map _id (bookings w)).

(** ** The steps of the handlers, named *)

Definition q_booking (code : string) : Query := [FieldIs "booking_id" (VStr code)].

Definition q_complete (oid : ObjectId) : Query :=
  [IdIs (VOid oid); FieldIs "status" (VStr "in_progress")].

Definition completed (now : Z) : gmap string Value :=
  <["status" := VStr "completed"]> (<["completed_at" := VDate now]> ∅).

Definition key := _sort_key_by_created_or_oid.

(** The fields [ensure_defaults] finds missing. *)
Definition backfill (now : Z) (doc : Doc) : gmap string Value :=
  let update_fields : gmap string Value := ∅ in
  let update_fields :=
    if decide (get "status" doc = None)
    then <["status" := VStr "waiting"]> update_fields else update_fields in
  if decide (get "created_at" doc = None)
  then <["created_at" := VDate now]> update_fields else update_fields.

(** The promotion both handlers perform: the head of the sorted waiting
    list, if there is one, is set in progress, with [started] as its
    [started_at]. *)
Definition promote_step (readings : nat -> Z) (started : Z) (w : World) : World :=
  match sorted_docs readings (waiting_docs w) with
  | o :: _ => after (update_one [IdIs (_id o)] (promoted started)) w
  | [] => w
  end.

Definition notified (now : Z) (w : World) : World :=
  mkWorld (bookings w) (updates w ++ [now]).

(** The store a successful [search] leaves, [d] being the document found. *)
Definition search_store (c : Clock) (d : Doc) (w : World) : World :=
  let w1 := after (ensure_defaults (at_default c) (_id d) d) w in
  notified (at_notify c)
    (if decide (count_in_progress w1 = 0%nat)
     then promote_step (at_key c) (at_start c) w1 else w1).

(** The store a successful [complete] leaves. *)
Definition complete_store (c : Clock) (oid : ObjectId) (w : World) : World :=
  notified (at_notify c)
    (promote_step (at_key c) (at_complete c)
       (after (update_one (q_complete oid) (completed (at_complete c))) w)).

(** ** The vocabulary of the specification *)

(** The number of documents of [l] that [p] selects. *)
Definition count (p : Doc -> bool) (l : list Doc) : nat := length (List.filter p l).

(** The code a request body supplies: [data.get("booking_id", "")], when
    that is a string. *)
Definition supplied_code (obj : gmap string Value) : option string :=
  match default (VStr "") (obj !! "booking_id") with
  | VStr raw => Some raw
  | _ => None
  end.

(** The duration table in the words of the specification: minutes per
    category, ten for a category that is missing or not in the table. *)
Definition spec_duration (category : option Value) : Z :=
  match category with
  | Some (VStr s) =>
      if decide (s = "Emergency") then 3
      else if decide (s = "Fever") then 2
      else if decide (s = "Headache") then 5
      else if decide (s = "General") then 10
      else if decide (s = "General Medicine") then 8
      else if decide (s = "Cardiology") then 15
      else 10
  | _ => 10
  end.

Definition sum_durations (l : list Doc) : Z :=
  fold_right (fun d acc => spec_duration (get "department" d) + acc) 0 l.

(** A completed booking whose [completed_at] is a date at or after [lo]
    and, when [hi] is given, before [hi]. *)
Definition completed_in (lo : Z) (hi : option Z) (d : Doc) : bool :=
  bool_decide (get "status" d = Some (VStr "completed")) &&
  match get "completed_at" d with
  | Some (VDate t) =>
      Z.leb lo t && match hi with Some h => Z.ltb t h | None => true end
  | _ => false
  end.

(** The count in the words of the specification: the bookings completed
    within the calendar day, in UTC, that contains [now]. *)
Definition spec_completed_today (now : Z) (w : World) : nat :=
  length (List.filter (completed_in (day_start now) (Some (day_start now + day_ms)))
                      (bookings w)).

(** The ordering key in the words of the specification: [created_at], or
    the creation time of the ObjectId when [created_at] is missing. *)
Definition fifo_key (d : Doc) : option Z :=
  match get "created_at" d with
  | Some (VDate t) => Some t
  | Some _ => None
  | None =>
      match _id d with
      | VOid o => Some (generation_time o)
      | _ => None
      end
  end.

(** [o] is a waiting booking of [w] and no waiting booking has a smaller
    key, each key taken as the sort computed it. *)
Definition fifo_earliest (readings : nat -> Z) (w : World) (o : Doc) : Prop :=
  exists i : nat,
    waiting_docs w !! i = Some o /\
    forall (j : nat) x, waiting_docs w !! j = Some x ->
      key (readings i) o <= key (readings j) x.

(** From the store [w1] a promotion leads to [w2]: without a waiting
    booking nothing is written; otherwise an earliest waiting booking now
    has status in_progress and [started_at] set to [started], its other
    fields are kept and so is every other booking.  So its key in the
    words of the specification is the least of those that are defined,
    and a waiting booking with a key greater than another's is still
    waiting. *)
Definition promoted_earliest (readings : nat -> Z) (started : Z) (w1 w2 : World) : Prop :=
  match waiting_docs w1 with
  | [] => bookings w2 = bookings w1
  | _ =>
      exists o o',
        fifo_earliest readings w1 o /\
        head (sorted_docs readings (waiting_docs w1)) = Some o /\
        lookup_id (_id o) w2 = Some o' /\
        status_is "in_progress" o' /\
        get "started_at" o' = Some (VDate started) /\
        (forall k, k ≠ "status" -> k ≠ "started_at" -> get k o' = get k o) /\
        (forall x, In x (bookings w1) -> _id x ≠ _id o -> lookup_id (_id x) w2 = Some x) /\
        (forall ko x kx, fifo_key o = Some ko -> In x (waiting_docs w1) ->
           fifo_key x = Some kx -> ko <= kx) /\
        (forall a b ka kb, In a (waiting_docs w1) -> In b (waiting_docs w1) ->
           fifo_key a = Some ka -> fifo_key b = Some kb -> ka < kb ->
           lookup_id (_id b) w2 = Some b /\ status_is "waiting" b) /\
        (forall (i j : nat) a b,
           waiting_docs w1 !! i = Some a -> waiting_docs w1 !! j = Some b ->
           key (readings i) a < key (readings j) b ->
           lookup_id (_id b) w2 = Some b /\ status_is "waiting" b)
  end.

(** The claim of the specification about [search]: the status of the
    booking whose identifier a successful call returns is after the call
    what it was before. *)
Definition status_untouched_by_search {methods : StrMethods}
    (c : Clock) (data : option (gmap string Value)) (w : World) : Prop :=
  forall i,
    result (search c data) w = Ok i ->
    (lookup_id i (after (search c data) w) ≫= get "status") =
    (lookup_id i w ≫= get "status").

(** ** Example clocks and stores *)

(** A clock that shows [now] at every reading, and one that advances by a
    millisecond from one reading to the next, in the order in which
    [search] and [complete] read it. *)
Definition steady (now : Z) : Clock :=
  mkClock now (fun _ => now) now now now (fun _ => now) now.

Definition ticking (now : Z) : Clock :=
  mkClock now (fun i => now + 1 + Z.of_nat i) (now + 100) (now + 101) now
          (fun i => now + 102 + Z.of_nat i) (now + 200).

(** The bookings of the scenario: three of category General, created in
    the order T1, T2, T3. *)
Definition ticket (n : Z) (code st : string) : Doc :=
  mkDoc (VOid (n * 2 ^ 64 + n))
    (<["booking_id" := VStr code]> (<["department" := VStr "General"]>
     (<["status" := VStr st]> (<["created_at" := VDate (n * 1000)]> ∅)))).

Definition three_waiting : World :=
  mkWorld [ticket 1 "B1" "waiting"; ticket 2 "B2" "waiting"; ticket 3 "B3" "waiting"] [].

Definition one_in_service : World :=
  mkWorld [ticket 1 "B1" "in_progress"; ticket 2 "B2" "waiting"; ticket 3 "B3" "waiting"] [].

(** The text of the ObjectId of [ticket 1]. *)
Definition id1 : string := "000000010000000000000001".

(** Two bookings made without the application: the first has a text as
    [_id] and no [created_at], the second has neither status nor
    [created_at]. *)
Definition legacy_g : Doc :=
  mkDoc (VStr "g") (<["status" := VStr "waiting"]> (<["booking_id" := VStr "G1"]> ∅)).

Definition legacy_l : Doc := mkDoc (VOid (7 * 2 ^ 64)) (<["booking_id" := VStr "L1"]> ∅).

Definition legacy : World := mkWorld [legacy_g; legacy_l] [].

(** The scenario after T1 was completed at 6000. *)
Definition one_completed : World :=
  mkWorld [set_fields (completed 6000) (ticket 1 "B1" "in_progress");
           ticket 2 "B2" "in_progress"; ticket 3 "B3" "waiting"] [6101].

(** ** The event stream *)

(** A datetime as Python compares it: an instant, and whether it carries
    a time zone.  The epoch of [get_latest_update_ts] is built with
    [tzinfo=timezone.utc]; a date read from the store carries a time zone
    only when the client was opened with [tz_aware]. *)
Record datetime := mkDatetime { instant : Z; aware : bool }.

(** [a > b]: comparing a naive with an aware datetime raises TypeError. *)
Definition datetime_gt (a b : datetime) : option bool :=
  if Bool.eqb (aware a) (aware b) then Some (Z.ltb (instant b) (instant a)) else None.

Section Stream.

(** The [tz_aware] option of the client, which [MONGO_URI] may set; the
    driver's default is [false]. *)
Variable tz_aware : bool.

(** [get_latest_update_ts()], with the kind of datetime it returns. *)
Definition get_latest_update_datetime : M datetime :=
  last ← find_latest_update;
  mret (match last with
        | Some ts => mkDatetime ts tz_aware
        | None => mkDatetime 0 true
        end).

(** [event_stream()] up to its first [yield]: the latest marker is read,
    then the statistics are computed and sent. *)
Definition stream_start (c : Clock) : M (datetime * Stats) :=
  last_ts ← get_latest_update_datetime;
  data ← compute_stats c;
  mret (last_ts, data).

(** One turn of the [while True] loop, from the [last_ts] of the turn
    before: [None] when the comparison raises, which ends the generator;
    otherwise the new [last_ts] and the statistics sent, if any.  The
    [time.sleep] between two turns is where other requests run. *)
Definition stream_poll (c : Clock) (last_ts : datetime) : M (option (datetime * option Stats)) :=
  latest ← get_latest_update_datetime;
  match datetime_gt latest last_ts with
  | None => mret None
  | Some true =>
      data ← compute_stats c;
      mret (Some (latest, Some data))
  | Some false => mret (Some (last_ts, None))
  end.

End Stream.

(** ** How a status moves *)

(** The moves of a status within one request. *)
Inductive status_moves : option Value -> option Value -> Prop :=
  | stays s : status_moves s s
  | enters : status_moves None (Some (VStr "waiting"))
  | enters_served : status_moves None (Some (VStr "in_progress"))
  | starts : status_moves (Some (VStr "waiting")) (Some (VStr "in_progress"))
  | finishes : status_moves (Some (VStr "in_progress")) (Some (VStr "completed")).

(** What one request may do to a booking: the [_id] is kept, the status
    moves forward, a present [created_at] is kept, and no field is
    written but [status], [created_at], [started_at] and [completed_at]. *)
Definition doc_moves (d d' : Doc) : Prop :=
  _id d' = _id d /\
  status_moves (get "status" d) (get "status" d') /\
  (is_Some (get "created_at" d) -> get "created_at" d' = get "created_at" d) /\
  forall k, k ≠ "status" -> k ≠ "created_at" -> k ≠ "started_at" -> k ≠ "completed_at" ->
            get k d' = get k d.

(** The three writes of the handlers, as seen on one booking: each leaves
    the booking as it was or rewrites it in its own way. *)
Definition backfilled (now : Z) (d d' : Doc) : Prop :=
  d' = d \/ d' = set_fields (backfill now d) d.

Definition promoted_from (now : Z) (d d' : Doc) : Prop :=
  d' = d \/ (status_is "waiting" d /\ d' = set_fields (promoted now) d).

Definition completed_from (now : Z) (d d' : Doc) : Prop :=
  d' = d \/ (status_is "in_progress" d /\ d' = set_fields (completed now) d).

(** What a sequence of requests may do to a booking. *)
Definition doc_history (d d' : Doc) : Prop :=
  _id d' = _id d /\
  rtc status_moves (get "status" d) (get "status" d') /\
  (status_is "completed" d -> status_is "completed" d') /\
  (status_is "in_progress" d -> status_is "in_progress" d' \/ status_is "completed" d') /\
  forall k, k ≠ "status" -> k ≠ "created_at" -> k ≠ "started_at" -> k ≠ "completed_at" ->
            get k d' = get k d.

(** The latest marker of a store, the epoch if there is none. *)
Definition latest_instant (w : World) : Z := result get_latest_update_ts w.

(** The datetime [get_latest_update_ts] returns on a store, with its kind. *)
Definition latest_datetime (tz_aware : bool) (w : World) : datetime :=
  mkDatetime (latest_instant w) (match updates w with [] => true | _ => tz_aware end).

(** ** The stamp of a completion *)

(** The reading a request would write as [completed_at]: only [complete]
    writes that field. *)
Definition completion_time (r : Request) : option Z :=
  match r with
  | ReqComplete c _ => Some (at_complete c)
  | _ => None
  end.

(** What one request may do to the [completed_at] of a booking: keep it,
    together with the fact of not being completed, or complete a booking
    in progress and stamp it with the reading of the request. *)
Definition stamp_moves (r : Request) (d d' : Doc) : Prop :=
  (get "completed_at" d' = get "completed_at" d /\
   (status_is "completed" d' -> status_is "completed" d)) \/
  (exists t, completion_time r = Some t /\ status_is "in_progress" d /\
             status_is "completed" d' /\ get "completed_at" d' = Some (VDate t)).

(** No completed booking of the store is stamped later than [bound]. *)
Definition completions_by (bound : Z) (w : World) : Prop :=
  forall d t, In d (bookings w) -> status_is "completed" d ->
              get "completed_at" d = Some (VDate t) -> t <= bound.

(** The clock reading a request would stamp on its marker. *)
Definition request_time (r : Request) : Z :=
  match r with
  | ReqSearch c _ => at_notify c
  | ReqComplete c _ => at_notify c
  | ReqStats c => at_notify c
  end.

#[global] Arguments matches : simpl never.
#[global] Arguments set_fields : simpl never.
#[global] Arguments get : simpl never.

(** ** Running monadic programs *)

Lemma run_bind {A B} (m : M A) (k : A -> M B) (w : World) :
  (m ≫= k) w = k (result m w) (after m w).
Proof. unfold mbind, M_bind, result, after. by destruct (m w). Qed.

Lemma run_ret {A} (a : A) (w : World) : (mret a : M A) w = (a, w).
Proof. reflexivity. Qed.

Lemma result_bind {A B} (m : M A) (k : A -> M B) w :
  result (m ≫= k) w = result (k (result m w)) (after m w).
Proof. unfold result at 1. by rewrite run_bind. Qed.

Lemma after_bind {A B} (m : M A) (k : A -> M B) w :
  after (m ≫= k) w = after (k (result m w)) (after m w).
Proof. unfold after at 1. by rewrite run_bind. Qed.

Lemma after_ret {A} (a : A) w : after (mret a : M A) w = w.
Proof. reflexivity. Qed.

Lemma after_find q w : after (find q) w = w.
Proof. reflexivity. Qed.

Lemma after_find_one q w : after (find_one q) w = w.
Proof. reflexivity. Qed.

Lemma after_count_documents q w : after (count_documents q) w = w.
Proof. reflexivity. Qed.

Lemma result_find q w : result (find q) w = List.filter (matches q) (bookings w).
Proof. reflexivity. Qed.

Lemma result_find_one q w : result (find_one q) w = List.find (matches q) (bookings w).
Proof. reflexivity. Qed.

Lemma result_count_documents q w :
  result (count_documents q) w = length (List.filter (matches q) (bookings w)).
Proof. reflexivity. Qed.

Lemma after_get_latest_update_ts w : after get_latest_update_ts w = w.
Proof. reflexivity. Qed.

Lemma bookings_after_update_one q upd w :
  bookings (after (update_one q upd) w) = (update_first q upd (bookings w)).2.
Proof. unfold after, update_one. by destruct (update_first q upd (bookings w)). Qed.

Lemma updates_after_update_one q upd w :
  updates (after (update_one q upd) w) = updates w.
Proof. unfold after, update_one. by destruct (update_first q upd (bookings w)). Qed.

Lemma result_update_one q upd w :
  result (update_one q upd) w = (update_first q upd (bookings w)).1.
Proof. unfold result, update_one. by destruct (update_first q upd (bookings w)). Qed.

(** ** Documents and updates *)

Lemma get_set_fields k upd d :
  get k (set_fields upd d) =
  match upd !! k with Some v => Some v | None => get k d end.
Proof.
  unfold get, set_fields; simpl. rewrite lookup_union.
  destruct (upd !! k), (fields d !! k); reflexivity.
Qed.

Lemma set_fields_empty d : set_fields ∅ d = d.
Proof. destruct d. unfold set_fields; simpl. by rewrite (left_id_L ∅ (∪)). Qed.

Lemma matches_status s d :
  matches (q_status s) d = true <-> status_is s d.
Proof.
  unfold matches, q_status, status_is; simpl.
  rewrite andb_true_r. apply bool_decide_eq_true.
Qed.

Lemma matches_id i d : matches [IdIs i] d = true <-> _id d = i.
Proof. unfold matches; simpl. rewrite andb_true_r. apply bool_decide_eq_true. Qed.

Lemma update_first_ids q upd l : map _id (update_first q upd l).2 = map _id l.
Proof.
  induction l as [|d r IH]; simpl; [done|].
  destruct (matches q d); simpl; [done|].
  destruct (update_first q upd r); simpl in *. by rewrite IH.
Qed.

Lemma update_first_length q upd l : length (update_first q upd l).2 = length l.
Proof. rewrite <- (length_map _id), update_first_ids. apply length_map. Qed.

(** No match: nothing is written. *)
Lemma update_first_unmatched q upd l :
  (update_first q upd l).1 = 0%nat <-> (forall d, In d l -> matches q d = false).
Proof.
  induction l as [|d r IH]; simpl.
  - split; [intros _ ? []|done].
  - destruct (matches q d) eqn:E; simpl.
    + split; [done|]. intros H. specialize (H d (or_introl eq_refl)). congruence.
    + destruct (update_first q upd r) as [n r'] eqn:U; simpl in *.
      rewrite IH. split.
      * intros H x [<-|Hx]; auto.
      * intros H x Hx. apply H. by right.
Qed.

Lemma update_first_unmatched_same q upd l :
  (update_first q upd l).1 = 0%nat -> (update_first q upd l).2 = l.
Proof.
  induction l as [|d r IH]; simpl; [done|].
  destruct (matches q d); simpl; [done|].
  destruct (update_first q upd r) as [n r'] eqn:U; simpl in *.
  intros H. by rewrite IH.
Qed.

Lemma update_first_matched q upd l :
  (update_first q upd l).1 = 0%nat \/ (update_first q upd l).1 = 1%nat.
Proof.
  induction l as [|d r IH]; simpl; [by left|].
  destruct (matches q d); simpl; [by right|].
  by destruct (update_first q upd r).
Qed.

(** The shape of an update that found its document. *)
Lemma update_first_split q upd l :
  (update_first q upd l).1 = 1%nat ->
  exists l1 d l2,
    l = l1 ++ d :: l2 /\ matches q d = true /\
    (forall x, In x l1 -> matches q x = false) /\
    (update_first q upd l).2 = l1 ++ set_fields upd d :: l2.
Proof.
  induction l as [|d r IH]; simpl; [done|].
  destruct (matches q d) eqn:E; simpl.
  - intros _. exists [], d, r. by simpl.
  - destruct (update_first q upd r) as [n r'] eqn:U; simpl in *.
    intros H. destruct (IH H) as (l1 & x & l2 & -> & Hx & Hl1 & ->).
    exists (d :: l1), x, l2. repeat split; try done.
    intros y [<-|Hy]; auto.
Qed.

Lemma find_split {A} (p : A -> bool) l d :
  List.find p l = Some d ->
  exists l1 l2, l = l1 ++ d :: l2 /\ p d = true /\ (forall x, In x l1 -> p x = false).
Proof.
  induction l as [|a r IH]; simpl; [done|].
  destruct (p a) eqn:E.
  - intros [= <-]. exists [], r. by simpl.
  - intros H. destruct (IH H) as (l1 & l2 & -> & Hd & Hl1).
    exists (a :: l1), l2. repeat split; try done.
    intros y [<-|Hy]; auto.
Qed.

Lemma find_app_skip {A} (p : A -> bool) l1 l2 :
  (forall x, In x l1 -> p x = false) -> List.find p (l1 ++ l2) = List.find p l2.
Proof.
  induction l1 as [|a r IH]; simpl; [done|].
  intros H. rewrite (H a (or_introl eq_refl)). apply IH. intros; apply H; by right.
Qed.

Lemma update_first_app_skip q upd l1 l2 :
  (forall x, In x l1 -> matches q x = false) ->
  update_first q upd (l1 ++ l2) =
  ((update_first q upd l2).1, l1 ++ (update_first q upd l2).2).
Proof.
  induction l1 as [|a r IH]; simpl; intros H.
  - by destruct (update_first q upd l2).
  - rewrite (H a (or_introl eq_refl)). rewrite IH by (intros; apply H; by right).
    reflexivity.
Qed.

(** Updating by [_id] rewrites the document that [_id] names ... *)
Lemma find_update_first_same i upd l d :
  List.find (matches [IdIs i]) l = Some d ->
  List.find (matches [IdIs i]) (update_first [IdIs i] upd l).2 = Some (set_fields upd d).
Proof.
  intros H. destruct (find_split _ _ _ H) as (l1 & l2 & -> & Hd & Hl1).
  rewrite update_first_app_skip by done. simpl. rewrite Hd. simpl.
  rewrite find_app_skip by done. simpl.
  assert (matches [IdIs i] (set_fields upd d) = true) as ->; [|done].
  apply matches_id. apply matches_id in Hd. done.
Qed.

(** ... and no document under another [_id]. *)
Lemma find_update_first_other i q upd l :
  (forall d, matches q d = true -> _id d <> i) ->
  List.find (matches [IdIs i]) (update_first q upd l).2 = List.find (matches [IdIs i]) l.
Proof.
  intros Hq. induction l as [|d r IH]; simpl; [done|].
  destruct (matches q d) eqn:E; simpl.
  - assert (matches [IdIs i] d = false) as Hd.
    { apply not_true_is_false. rewrite matches_id. by apply Hq. }
    assert (matches [IdIs i] (set_fields upd d) = false) as ->; [|by rewrite Hd].
    apply not_true_is_false. rewrite matches_id. simpl. by apply Hq.
  - destruct (update_first q upd r) as [n r'] eqn:U; simpl in *.
    by rewrite IH.
Qed.

(** With unique identifiers, a document of the store is the one its
    [_id] names. *)
Lemma find_by_id_unique l d :
  NoDup (map _id l) -> In d l -> List.find (matches [IdIs (_id d)]) l = Some d.
Proof.
  induction l as [|a r IH]; simpl; [done|].
  intros Hnd [->|Hin].
  - assert (matches [IdIs (_id d)] d = true) as ->; [by apply matches_id|done].
  - apply NoDup_cons in Hnd as [Hna Hnd].
    assert (matches [IdIs (_id d)] a = false) as ->.
    { apply not_true_is_false. rewrite matches_id. intros E. apply Hna.
      rewrite E. apply list_elem_of_In, in_map, Hin. }
    by apply IH.
Qed.

(** ** Sorting *)

Section SortedFacts.
Context {A : Type} (key : A -> Z).

Lemma insert_sorted_perm x l : Permutation (insert_sorted key x l) (x :: l).
Proof.
  induction l as [|y r IH]; simpl; [done|].
  destruct (Z.leb (key x) (key y)); [done|].
  rewrite IH. apply perm_swap.
Qed.

Lemma sorted_perm l : Permutation (sorted key l) l.
Proof.
  induction l as [|x r IH]; simpl; [done|].
  rewrite insert_sorted_perm. by constructor.
Qed.

Lemma sorted_nil l : sorted key l = [] -> l = [].
Proof.
  intros H. apply Permutation_nil. rewrite <- H. apply sorted_perm.
Qed.

(** The head of the sorted list is the first element of least key. *)
Lemma sorted_head l o r :
  sorted key l = o :: r ->
  exists l1 l2,
    l = l1 ++ o :: l2 /\
    (forall y, In y l1 -> key o < key y) /\
    (forall y, In y l2 -> key o <= key y).
Proof.
  revert o r. induction l as [|a l IH]; simpl; [done|].
  intros o r. destruct (sorted key l) as [|o' r'] eqn:S; simpl.
  - intros [= <- <-]. apply sorted_nil in S as ->.
    exists [], []. by simpl.
  - destruct (IH _ _ eq_refl) as (l1 & l2 & -> & H1 & H2).
    destruct (Z.leb (key a) (key o')) eqn:E.
    + intros [= <- <-]. apply Z.leb_le in E.
      exists [], (l1 ++ o' :: l2). repeat split; [done|].
      intros y Hy. apply in_app_or in Hy as [Hy|[<-|Hy]]; [|done|].
      * specialize (H1 _ Hy). lia.
      * specialize (H2 _ Hy). lia.
    + intros [= <- <-]. apply Z.leb_gt in E.
      exists (a :: l1), l2. repeat split; [|done].
      intros y [<-|Hy]; [lia|by apply H1].
Qed.

Lemma sorted_head_min l o r :
  sorted key l = o :: r -> In o l /\ forall y, In y l -> key o <= key y.
Proof.
  intros H. destruct (sorted_head _ _ _ H) as (l1 & l2 & -> & H1 & H2).
  split; [apply in_elt|].
  intros y Hy. apply in_app_or in Hy as [Hy|[<-|Hy]]; [|lia|by apply H2].
  specialize (H1 _ Hy). lia.
Qed.
End SortedFacts.

(** ** Counting the documents a predicate selects *)

Section Counting.
Variable p : Doc -> bool.

Lemma count_app l1 l2 : count p (l1 ++ l2) = (count p l1 + count p l2)%nat.
Proof. unfold count. by rewrite List.filter_app, length_app. Qed.

Lemma count_update_first q upd l :
  (update_first q upd l).1 = 1%nat ->
  exists d,
    In d l /\ matches q d = true /\
    (count p (update_first q upd l).2 + (if p d then 1 else 0) =
     count p l + (if p (set_fields upd d) then 1 else 0))%nat.
Proof.
  intros H. destruct (update_first_split _ _ _ H) as (l1 & d & l2 & -> & Hd & _ & ->).
  exists d. split; [apply in_elt|]. split; [done|]. rewrite !count_app. unfold count; simpl.
  destruct (p d), (p (set_fields upd d)); simpl; lia.
Qed.

(** One update adds at most one selected document. *)
Lemma count_update_le_S q upd l :
  (count p (update_first q upd l).2 <= S (count p l))%nat.
Proof.
  destruct (update_first_matched q upd l) as [H|H].
  - rewrite update_first_unmatched_same by done. lia.
  - destruct (count_update_first _ _ _ H) as (d & _ & _ & E).
    destruct (p d), (p (set_fields upd d)); lia.
Qed.

Lemma count_update_no_new q upd l :
  (forall d, p (set_fields upd d) = true -> p d = true) ->
  (count p (update_first q upd l).2 <= count p l)%nat.
Proof.
  intros Hp. destruct (update_first_matched q upd l) as [H|H].
  - rewrite update_first_unmatched_same by done. lia.
  - destruct (count_update_first _ _ _ H) as (d & _ & _ & E).
    specialize (Hp d). destruct (p d), (p (set_fields upd d)); try lia;
      by specialize (Hp eq_refl).
Qed.

Lemma count_update_removed q upd l :
  (forall d, matches q d = true -> p d = true) ->
  (forall d, p (set_fields upd d) = false) ->
  (update_first q upd l).1 = 1%nat ->
  S (count p (update_first q upd l).2) = count p l.
Proof.
  intros Hq Hp H. destruct (count_update_first _ _ _ H) as (d & _ & Hd & E).
  rewrite (Hq d Hd), (Hp d) in E. lia.
Qed.
End Counting.

Lemma count_in_progress_eq w :
  count_in_progress w = count (matches (q_status "in_progress")) (bookings w).
Proof. reflexivity. Qed.

(** ** The sorted waiting list *)

Lemma keyed_docs readings i l : map snd (keyed readings i l) = l.
Proof. revert i. induction l as [|d r IH]; intros i; simpl; [done|]. by rewrite IH. Qed.

Lemma keyed_In readings i l k y :
  In (k, y) (keyed readings i l) <->
  exists j : nat, l !! j = Some y /\ k = _sort_key_by_created_or_oid (readings (i + j)%nat) y.
Proof.
  revert i. induction l as [|d r IH]; intros i; simpl.
  - split; [done|]. by intros (j & ? & _).
  - rewrite IH. split.
    + intros [[= <- <-]|(j & Hj & ->)].
      * exists 0%nat. by rewrite Nat.add_0_r.
      * exists (S j). split; [done|]. do 2 f_equal. lia.
    + intros ([|j] & Hj & ->); simpl in Hj.
      * left. injection Hj as ->. by rewrite Nat.add_0_r.
      * right. exists j. split; [done|]. do 2 f_equal. lia.
Qed.

Lemma sorted_docs_perm readings l : Permutation (sorted_docs readings l) l.
Proof.
  unfold sorted_docs. rewrite <- (keyed_docs readings 0 l) at 2.
  apply Permutation_map, sorted_perm.
Qed.

Lemma sorted_docs_nil readings l : sorted_docs readings l = [] -> l = [].
Proof.
  intros H. apply Permutation_nil. rewrite <- H. apply sorted_docs_perm.
Qed.

Lemma sorted_docs_In readings l d : In d (sorted_docs readings l) <-> In d l.
Proof.
  split; apply Permutation_in; [|symmetry]; apply sorted_docs_perm.
Qed.

(** The head of the sorted list has the least of the keys computed. *)
Lemma sorted_docs_head readings l o r :
  sorted_docs readings l = o :: r ->
  exists i : nat,
    l !! i = Some o /\
    forall (j : nat) x, l !! j = Some x ->
      _sort_key_by_created_or_oid (readings i) o <= _sort_key_by_created_or_oid (readings j) x.
Proof.
  unfold sorted_docs. intros H.
  destruct (sorted fst (keyed readings 0 l)) as [|[k o'] ps] eqn:S; [done|].
  simpl in H. injection H as -> _.
  destruct (sorted_head_min _ _ _ _ S) as [Hin Hmin].
  apply keyed_In in Hin as (i & Hi & ->). simpl in Hi. exists i. split; [done|].
  intros j x Hj.
  apply (Hmin (_sort_key_by_created_or_oid (readings j) x, x)).
  apply keyed_In. by exists j.
Qed.

Lemma insert_sorted_uniform (key' : Doc -> Z) k d (ps : list (Z * Doc)) :
  k = key' d -> (forall q, In q ps -> fst q = key' (snd q)) ->
  map snd (insert_sorted fst (k, d) ps) = insert_sorted key' d (map snd ps).
Proof.
  intros -> H. induction ps as [|[k' d'] ps IH]; [done|].
  pose proof (H (k', d') (or_introl eq_refl)) as E. simpl in E. subst k'. simpl.
  destruct (Z.leb (key' d) (key' d')); simpl; [done|].
  rewrite IH; [done|]. intros q Hq. apply H. by right.
Qed.

Lemma sorted_keyed_uniform readings (key' : Doc -> Z) i l :
  (forall (j : nat) x, l !! j = Some x ->
     _sort_key_by_created_or_oid (readings (i + j)%nat) x = key' x) ->
  map snd (sorted fst (keyed readings i l)) = sorted key' l.
Proof.
  revert i. induction l as [|d r IH]; intros i H; [done|]. simpl.
  assert (Hr : forall (j : nat) x, r !! j = Some x ->
            _sort_key_by_created_or_oid (readings (S i + j)%nat) x = key' x).
  { intros j x Hj. replace (S i + j)%nat with (i + S j)%nat by lia. by apply H. }
  rewrite <- (IH (S i) Hr). apply insert_sorted_uniform.
  - rewrite <- (H 0%nat d eq_refl). by rewrite Nat.add_0_r.
  - intros [k x] Hq. simpl.
    apply (Permutation_in _ (sorted_perm fst (keyed readings (S i) r))) in Hq.
    apply keyed_In in Hq as (j & Hj & ->). by apply Hr.
Qed.

(** When the key of a document does not depend on the reading, the list
    is sorted by that key. *)
Lemma sorted_docs_uniform readings (key' : Doc -> Z) l :
  (forall (j : nat) x, l !! j = Some x -> _sort_key_by_created_or_oid (readings j) x = key' x) ->
  sorted_docs readings l = sorted key' l.
Proof. intros H. apply sorted_keyed_uniform. intros j x Hj. by apply H. Qed.

(** ** What the handlers do to the store *)

Section Handlers.

Context {methods : StrMethods}.

Lemma ensure_defaults_run now doc_id doc w :
  ensure_defaults now doc_id doc w =
  (set_fields (backfill now doc) doc,
   after (update_one [IdIs doc_id] (backfill now doc)) w).
Proof.
  unfold ensure_defaults. fold (backfill now doc).
  destruct (decide (backfill now doc = ∅)) as [E|E].
  - rewrite E, set_fields_empty. unfold after, update_one.
    destruct (update_first [IdIs doc_id] ∅ (bookings w)) as [n l] eqn:U; simpl.
    rewrite run_ret. f_equal. destruct w as [b u]; simpl in *. f_equal.
    assert (l = (update_first [IdIs doc_id] ∅ b).2) as -> by by rewrite U.
    clear. induction b as [|d r IH]; simpl; [done|].
    destruct (matches [IdIs doc_id] d); simpl; [by rewrite set_fields_empty|].
    destruct (update_first [IdIs doc_id] ∅ r); simpl in *. by rewrite <- IH.
  - rewrite run_bind, run_ret. reflexivity.
Qed.

Lemma after_ensure_defaults now doc_id doc w :
  after (ensure_defaults now doc_id doc) w =
  after (update_one [IdIs doc_id] (backfill now doc)) w.
Proof. unfold after at 1. by rewrite ensure_defaults_run. Qed.

Lemma result_ensure_defaults now doc_id doc w :
  result (ensure_defaults now doc_id doc) w = set_fields (backfill now doc) doc.
Proof. unfold result. by rewrite ensure_defaults_run. Qed.

Lemma backfill_lookup now doc k :
  backfill now doc !! k =
  if decide (k = "status") then
    (if decide (get "status" doc = None) then Some (VStr "waiting") else None)
  else if decide (k = "created_at") then
    (if decide (get "created_at" doc = None) then Some (VDate now) else None)
  else None.
Proof.
  unfold backfill.
  destruct (decide (get "status" doc = None)), (decide (get "created_at" doc = None));
    repeat case_decide; simplify_map_eq; done.
Qed.

Lemma after_update_one_unmatched q upd w :
  (update_first q upd (bookings w)).1 = 0%nat -> after (update_one q upd) w = w.
Proof.
  intros H. unfold after, update_one.
  pose proof (update_first_unmatched_same _ _ _ H) as E.
  destruct (update_first q upd (bookings w)); simpl in *. subst. by destruct w.
Qed.

Lemma compute_stats_after c w : after (compute_stats c) w = w.
Proof. reflexivity. Qed.

Lemma after_notify_update now w : after (notify_update now) w = notified now w.
Proof. reflexivity. Qed.

Lemma search_found c obj raw d w :
  obj ≠ ∅ ->
  default (VStr "") (obj !! "booking_id") = VStr raw ->
  str_upper (str_strip raw) ≠ "" ->
  List.find (matches (q_booking (str_upper (str_strip raw)))) (bookings w) = Some d ->
  search c (Some obj) w = (Ok (_id d), search_store c d w).
Proof.
  intros Hobj Hraw Hcode Hfind. unfold search.
  rewrite decide_False by done. rewrite Hraw. rewrite decide_False by done.
  rewrite run_bind, after_find_one, result_find_one.
  fold (q_booking (str_upper (str_strip raw))). rewrite Hfind.
  rewrite run_bind, result_ensure_defaults. unfold search_store.
  set (w1 := after (ensure_defaults (at_default c) (_id d) d) w).
  rewrite run_bind, after_count_documents, result_count_documents.
  fold (count_in_progress w1).
  rewrite run_bind.
  destruct (decide (count_in_progress w1 = 0%nat)) as [E|E].
  - rewrite after_bind, result_find, after_find.
    fold (waiting_docs w1). unfold promote_step.
    destruct (sorted_docs (at_key c) (waiting_docs w1)) as [|o r].
    + rewrite run_bind. reflexivity.
    + rewrite after_bind, run_bind. reflexivity.
  - rewrite run_bind. reflexivity.
Qed.

Section CompleteRun.
Variable ObjectId_of_str : string -> option ObjectId.

Lemma complete_run c id w :
  complete ObjectId_of_str c id w =
  match ObjectId_of_str id with
  | None => (Error 400 "Invalid ID", w)
  | Some oid =>
      if decide ((update_first (q_complete oid) (completed (at_complete c))
                    (bookings w)).1 = 0%nat)
      then (Error 404 "No in-progress appointment with that ID", w)
      else (Ok (result (compute_stats c) (complete_store c oid w)),
            complete_store c oid w)
  end.
Proof.
  unfold complete. destruct (ObjectId_of_str id) as [oid|]; [|done].
  fold (q_complete oid). fold (completed (at_complete c)).
  rewrite run_bind, result_update_one.
  destruct (decide ((update_first (q_complete oid) (completed (at_complete c))
                       (bookings w)).1 = 0%nat)) as [E|E].
  - rewrite after_update_one_unmatched by done. reflexivity.
  - set (w1 := after (update_one (q_complete oid) (completed (at_complete c))) w).
    rewrite run_bind, after_find, result_find.
    fold (waiting_docs w1). unfold complete_store. fold w1.
    unfold promote_step.
    destruct (sorted_docs (at_key c) (waiting_docs w1)) as [|o r].
    + rewrite !run_bind, after_ret, after_notify_update, compute_stats_after.
      reflexivity.
    + rewrite !run_bind, after_bind, after_ret, after_notify_update, compute_stats_after.
      reflexivity.
Qed.
End CompleteRun.

(** Every way [search] can end. *)
Lemma search_cases c data w :
  (exists msg, search c data w = (Error 400 msg, w)) \/
  search c data w = (Uncaught, w) \/
  (exists obj raw,
     data = Some obj /\ obj ≠ ∅ /\
     default (VStr "") (obj !! "booking_id") = VStr raw /\
     str_upper (str_strip raw) ≠ "" /\
     match List.find (matches (q_booking (str_upper (str_strip raw)))) (bookings w) with
     | None => search c data w = (Error 404 "Not found", w)
     | Some d => search c data w = (Ok (_id d), search_store c d w)
     end).
Proof.
  destruct data as [obj|]; [|left; by eexists].
  destruct (decide (obj = ∅)) as [E|E].
  { left. exists "No JSON received". unfold search. by rewrite decide_True. }
  destruct (default (VStr "") (obj !! "booking_id")) as [| | |raw| |] eqn:R;
    try (right; left; unfold search; rewrite decide_False by done; by rewrite R).
  destruct (decide (str_upper (str_strip raw) = "")) as [C|C].
  { left. exists "Booking ID required". unfold search.
    rewrite decide_False by done. rewrite R. by rewrite decide_True. }
  right; right. exists obj, raw. repeat split; try done.
  destruct (List.find _ _) as [d|] eqn:F.
  - by apply (search_found c obj raw).
  - unfold search. rewrite decide_False by done. rewrite R.
    rewrite decide_False by done.
    rewrite run_bind, after_find_one, result_find_one.
    fold (q_booking (str_upper (str_strip raw))). by rewrite F.
Qed.

(** ** The in-progress count along the handlers *)

Lemma in_progress_not_new_backfill now doc d :
  matches (q_status "in_progress") (set_fields (backfill now doc) d) = true ->
  matches (q_status "in_progress") d = true.
Proof.
  rewrite !matches_status. unfold status_is.
  rewrite get_set_fields, backfill_lookup. rewrite decide_True by done.
  by case_decide.
Qed.

Lemma count_after_ensure_defaults now doc_id doc w :
  (count_in_progress (after (ensure_defaults now doc_id doc) w) <= count_in_progress w)%nat.
Proof.
  rewrite after_ensure_defaults, !count_in_progress_eq, bookings_after_update_one.
  apply count_update_no_new. apply in_progress_not_new_backfill.
Qed.

Lemma count_after_promote_step readings started w :
  (count_in_progress (promote_step readings started w) <= S (count_in_progress w))%nat.
Proof.
  unfold promote_step. destruct (sorted_docs _ _) as [|o r]; [lia|].
  rewrite !count_in_progress_eq, bookings_after_update_one.
  apply count_update_le_S.
Qed.

Lemma q_complete_in_progress oid d :
  matches (q_complete oid) d = true -> matches (q_status "in_progress") d = true.
Proof.
  unfold matches, q_complete, q_status; simpl. intros H.
  apply andb_prop in H as [_ H]. done.
Qed.

Lemma completed_not_in_progress now d :
  matches (q_status "in_progress") (set_fields (completed now) d) = false.
Proof.
  apply not_true_is_false. rewrite matches_status. unfold status_is.
  rewrite get_set_fields. unfold completed. simplify_map_eq. done.
Qed.

Lemma count_after_completion now oid w :
  (update_first (q_complete oid) (completed now) (bookings w)).1 ≠ 0%nat ->
  S (count_in_progress (after (update_one (q_complete oid) (completed now)) w)) =
  count_in_progress w.
Proof.
  intros H. rewrite !count_in_progress_eq, bookings_after_update_one.
  apply count_update_removed.
  - apply q_complete_in_progress.
  - apply completed_not_in_progress.
  - destruct (update_first_matched (q_complete oid) (completed now) (bookings w)); done.
Qed.

Lemma single_server_search_store c d w :
  single_server w -> single_server (search_store c d w).
Proof.
  unfold single_server, search_store. intros H0.
  pose proof (count_after_ensure_defaults (at_default c) (_id d) d w) as H1.
  set (w1 := after (ensure_defaults (at_default c) (_id d) d) w) in *.
  change (count_in_progress (notified (at_notify c) ?x)) with (count_in_progress x).
  case_decide as E.
  - pose proof (count_after_promote_step (at_key c) (at_start c) w1). lia.
  - lia.
Qed.

Lemma single_server_complete_store c oid w :
  (update_first (q_complete oid) (completed (at_complete c)) (bookings w)).1 ≠ 0%nat ->
  single_server w -> single_server (complete_store c oid w).
Proof.
  unfold single_server, complete_store. intros Hm H0.
  pose proof (count_after_completion (at_complete c) oid w Hm) as H1.
  set (w1 := after (update_one (q_complete oid) (completed (at_complete c))) w) in *.
  change (count_in_progress (notified (at_notify c) ?x)) with (count_in_progress x).
  pose proof (count_after_promote_step (at_key c) (at_complete c) w1). lia.
Qed.

Section Serve.
Variable ObjectId_of_str : string -> option ObjectId.

Lemma single_server_search c data w :
  single_server w -> single_server (after (search c data) w).
Proof.
  intros H0. unfold after.
  destruct (search_cases c data w) as [[msg ->]|[->|(obj & raw & _ & _ & _ & _ & Hc)]];
    try done.
  destruct (List.find _ _) as [d|]; rewrite Hc; simpl; [|done].
  by apply single_server_search_store.
Qed.

Lemma single_server_complete c id w :
  single_server w -> single_server (after (complete ObjectId_of_str c id) w).
Proof.
  intros H0. unfold after. rewrite complete_run.
  destruct (ObjectId_of_str id) as [oid|]; [|done].
  case_decide; simpl; [done|]. by apply single_server_complete_store.
Qed.

(** C1.  From a store in which at most one booking is in progress,
    [search] and [complete] each leave a store in which at most one
    booking is in progress, whatever the request and whatever the
    outcome; so the same holds after any sequence of requests. *)
Theorem single_server_invariant (w : World) :
  single_server w ->
  (forall c data, single_server (after (search c data) w)) /\
  (forall c id, single_server (after (complete ObjectId_of_str c id) w)) /\
  (forall rs, single_server (serve ObjectId_of_str rs w)).
Proof.
  intros H0. split; [|split].
  - intros. by apply single_server_search.
  - intros. by apply single_server_complete.
  - intros rs. revert w H0. induction rs as [|r rs IH]; intros w H0; simpl; [done|].
    apply IH. destruct r; simpl.
    + by apply single_server_search.
    + by apply single_server_complete.
    + by rewrite compute_stats_after.
Qed.
End Serve.

(** ** Reading the statistics *)

(** C9.  [compute_stats] writes nothing: the bookings and the markers are
    after it what they were before it.  Its result is a value: whatever
    program runs on the store afterwards, the statistics computed before
    it are unchanged. *)
Theorem compute_stats_reads_only (c : Clock) (w : World) :
  bookings (after (compute_stats c) w) = bookings w /\
  updates (after (compute_stats c) w) = updates w /\
  after (compute_stats c) w = w /\
  forall (B : Type) (later : M B),
    result (stats ← compute_stats c; _ ← later; mret stats) w =
    result (compute_stats c) w.
Proof.
  rewrite compute_stats_after. repeat split.
  intros B later. rewrite !result_bind. reflexivity.
Qed.

(** ** Failing requests *)

Lemma find_none_iff {A} (p : A -> bool) l :
  List.find p l = None <-> forall x, In x l -> p x = false.
Proof.
  split; [apply List.find_none|].
  intros H. rewrite <- (app_nil_r l). by rewrite find_app_skip.
Qed.

Lemma matches_q_complete oid d :
  matches (q_complete oid) d = true <-> _id d = VOid oid /\ status_is "in_progress" d.
Proof.
  unfold matches, q_complete, status_is; simpl.
  rewrite andb_true_r, andb_true_iff, !bool_decide_eq_true. done.
Qed.

Lemma matches_q_booking code d :
  matches (q_booking code) d = true <-> get "booking_id" d = Some (VStr code).
Proof.
  unfold matches, q_booking; simpl. rewrite andb_true_r. apply bool_decide_eq_true.
Qed.

(** C6.  A request whose code is empty after [strip] and [upper],
    whatever these two methods of the library do, is answered 400, as is
    a request without a body; a request whose normalised code is not
    empty and is the [booking_id] of no booking is answered 404.  In each
    of these cases the store is left as it was: no booking is written and
    no marker is inserted. *)
Theorem search_failures (c : Clock) (w : World) :
  (exists msg, search c None w = (Error 400 msg, w)) /\
  forall obj raw,
    supplied_code obj = Some raw ->
    (str_upper (str_strip raw) = "" ->
     exists msg, search c (Some obj) w = (Error 400 msg, w)) /\
    (str_upper (str_strip raw) ≠ "" ->
     (forall d, In d (bookings w) -> get "booking_id" d ≠ Some (VStr (str_upper (str_strip raw)))) ->
     search c (Some obj) w = (Error 404 "Not found", w)).
Proof.
  split; [by eexists|].
  intros obj raw Hraw. unfold supplied_code in Hraw.
  destruct (default (VStr "") (obj !! "booking_id")) as [| | |raw'| |] eqn:R; try done.
  injection Hraw as ->. split.
  - intros E. unfold search. case_decide; [by eexists|].
    rewrite R. rewrite decide_True by done. by eexists.
  - intros E Hnone.
    assert (List.find (matches (q_booking (str_upper (str_strip raw)))) (bookings w) = None) as F.
    { apply find_none_iff. intros d Hd. apply not_true_is_false.
      rewrite matches_q_booking. by apply Hnone. }
    unfold search. case_decide as Hobj.
    + subst obj. rewrite lookup_empty in R. injection R as <-.
      destruct E. by rewrite strip_empty, upper_empty.
    + rewrite R. rewrite decide_False by done.
      rewrite run_bind, after_find_one, result_find_one.
      fold (q_booking (str_upper (str_strip raw))). by rewrite F.
Qed.

Section CompleteFailures.
Variable ObjectId_of_str : string -> option ObjectId.

(** C10.  [complete] fails in two ways: 400 when the text is not an
    ObjectId, 404 when no booking carries that ObjectId with status
    in_progress.  Whenever it fails the store after the call is the
    store before it: no booking is written, none is promoted and no
    marker is inserted. *)
Theorem complete_failure_atomic (c : Clock) (id : string) (w : World) :
  (ObjectId_of_str id = None ->
   complete ObjectId_of_str c id w = (Error 400 "Invalid ID", w)) /\
  (forall oid,
     ObjectId_of_str id = Some oid ->
     (forall d, In d (bookings w) -> ~ (_id d = VOid oid /\ status_is "in_progress" d)) ->
     complete ObjectId_of_str c id w =
     (Error 404 "No in-progress appointment with that ID", w)) /\
  (forall code msg,
     result (complete ObjectId_of_str c id) w = Error code msg ->
     after (complete ObjectId_of_str c id) w = w /\
     bookings (after (complete ObjectId_of_str c id) w) = bookings w /\
     updates (after (complete ObjectId_of_str c id) w) = updates w) /\
  result (complete ObjectId_of_str c id) w ≠ Uncaught.
Proof.
  unfold result, after. rewrite complete_run. split; [|split; [|split]].
  - by intros ->.
  - intros oid -> Hnone. rewrite decide_True; [done|].
    apply update_first_unmatched. intros d Hd. apply not_true_is_false.
    rewrite matches_q_complete. by apply Hnone.
  - intros code msg. destruct (ObjectId_of_str id); [case_decide|]; done.
  - destruct (ObjectId_of_str id); [case_decide|]; done.
Qed.
End CompleteFailures.

(** ** The backfill *)

Lemma update_first_keeps_others i upd l (n : nat) d :
  l !! n = Some d -> _id d ≠ i -> (update_first [IdIs i] upd l).2 !! n = Some d.
Proof.
  revert n. induction l as [|a r IH]; intros n; [done|].
  simpl. destruct (matches [IdIs i] a) eqn:E; simpl.
  - destruct n as [|n]; simpl; [|done].
    intros [= ->] Hne. apply matches_id in E. done.
  - destruct (update_first [IdIs i] upd r) as [m r'] eqn:U; simpl in *.
    destruct n as [|n]; simpl; [done|]. apply IH.
Qed.

Lemma backfill_complete now doc :
  is_Some (get "status" doc) -> is_Some (get "created_at" doc) -> backfill now doc = ∅.
Proof.
  intros [v Hv] [c Hc]. unfold backfill.
  rewrite (decide_False (P := get "status" doc = None)) by by rewrite Hv.
  by rewrite (decide_False (P := get "created_at" doc = None)) by by rewrite Hc.
Qed.

Lemma ensure_defaults_complete now doc_id doc w :
  is_Some (get "status" doc) -> is_Some (get "created_at" doc) ->
  ensure_defaults now doc_id doc w = (doc, w).
Proof.
  intros Hs Hc. unfold ensure_defaults. fold (backfill now doc).
  rewrite backfill_complete by done. by rewrite decide_True.
Qed.

(** C8.  [ensure_defaults] returns the document with status waiting when
    it had no status and with created_at set to the current time when it
    had none; a status or created_at that is present is kept, every other
    field and the _id are kept.  In the store only the document under
    [doc_id] is written, and when that is the document passed in it
    becomes the document returned; no marker is inserted.  A document
    that has both fields is returned as it is and the store is not
    written.  So a second application, at whatever time, changes neither
    the document nor the store. *)
Theorem ensure_defaults_idempotent (now : Z) (doc_id : Value) (doc : Doc) (w : World) :
  let doc' := result (ensure_defaults now doc_id doc) w in
  let w' := after (ensure_defaults now doc_id doc) w in
  get "status" doc' = Some (default (VStr "waiting") (get "status" doc)) /\
  get "created_at" doc' = Some (default (VDate now) (get "created_at" doc)) /\
  (forall k, k ≠ "status" -> k ≠ "created_at" -> get k doc' = get k doc) /\
  _id doc' = _id doc /\
  updates w' = updates w /\
  length (bookings w') = length (bookings w) /\
  (forall (n : nat) d, bookings w !! n = Some d -> _id d ≠ doc_id -> bookings w' !! n = Some d) /\
  (lookup_id doc_id w = Some doc -> lookup_id doc_id w' = Some doc') /\
  (is_Some (get "status" doc) -> is_Some (get "created_at" doc) -> doc' = doc /\ w' = w) /\
  (forall now2, ensure_defaults now2 doc_id doc' w' = (doc', w')) /\
  (forall now2,
     (d1 ← ensure_defaults now doc_id doc; ensure_defaults now2 doc_id d1) w =
     ensure_defaults now doc_id doc w).
Proof.
  intros doc' w'.
  assert (Hd : doc' = set_fields (backfill now doc) doc)
    by apply result_ensure_defaults.
  assert (Hw : w' = after (update_one [IdIs doc_id] (backfill now doc)) w)
    by apply after_ensure_defaults.
  assert (Hst : get "status" doc' = Some (default (VStr "waiting") (get "status" doc))).
  { rewrite Hd, get_set_fields, backfill_lookup. rewrite decide_True by done.
    case_decide as E; [by rewrite E|]. by destruct (get "status" doc). }
  assert (Hcr : get "created_at" doc' = Some (default (VDate now) (get "created_at" doc))).
  { rewrite Hd, get_set_fields, backfill_lookup. rewrite decide_False by done.
    rewrite decide_True by done.
    case_decide as E; [by rewrite E|]. by destruct (get "created_at" doc). }
  assert (Hidem : forall now2, ensure_defaults now2 doc_id doc' w' = (doc', w')).
  { intros now2. apply ensure_defaults_complete; [by rewrite Hst|by rewrite Hcr]. }
  split; [done|]. split; [done|]. split.
  { intros k Hk1 Hk2. rewrite Hd, get_set_fields, backfill_lookup.
    by rewrite !decide_False by done. }
  split; [by rewrite Hd|]. split; [by rewrite Hw, updates_after_update_one|]. split.
  { by rewrite Hw, bookings_after_update_one, update_first_length. }
  split.
  { intros n d Hn Hne. rewrite Hw, bookings_after_update_one.
    by apply update_first_keeps_others. }
  split.
  { unfold lookup_id. intros H. rewrite Hw, bookings_after_update_one, Hd.
    by apply find_update_first_same. }
  split.
  { intros Hs Hc. unfold doc', w', result, after.
    by rewrite ensure_defaults_complete. }
  split; [done|].
  intros now2. rewrite run_bind. fold doc' w'. rewrite Hidem.
  unfold doc', w', result, after. by destruct (ensure_defaults now doc_id doc w).
Qed.

(** ** The estimated wait *)

Lemma service_time_spec d :
  service_time (default (VStr "General") (get "department" d)) =
  spec_duration (get "department" d).
Proof.
  destruct (get "department" d) as [[| | |s| |]|]; try reflexivity.
  unfold service_time, spec_duration, DEPT_SERVICE_TIME; simpl.
  repeat case_decide; subst; simplify_map_eq; reflexivity.
Qed.

Lemma fold_left_durations l a :
  fold_left
    (fun acc appt => acc + service_time (default (VStr "General") (get "department" appt)))
    l a = a + sum_durations l.
Proof.
  revert a. induction l as [|d r IH]; intros a; simpl; [lia|].
  rewrite IH, service_time_spec. lia.
Qed.

Lemma sum_durations_perm l1 l2 : Permutation l1 l2 -> sum_durations l1 = sum_durations l2.
Proof. induction 1; simpl; lia. Qed.

(** C4.  The estimated wait is the duration of the in-progress booking
    that [find_one] returns, if there is one, plus the durations of all
    waiting bookings, with the durations of the fixed table and ten
    minutes for a department that is missing or not in the table; the
    queue length is the number of waiting bookings.  With three bookings
    of category General waiting, a search promotes the first, and the
    statistics then show 30 minutes and a queue of 2 behind T1. *)
Theorem estimated_wait_sum (c : Clock) (w : World) :
  estimated_wait_min (result (compute_stats c) w) =
    match List.find (matches (q_status "in_progress")) (bookings w) with
    | Some d => spec_duration (get "department" d)
    | None => 0
    end + sum_durations (waiting_docs w) /\
  queue_length (result (compute_stats c) w) = length (waiting_docs w) /\
  (forall dept, service_time dept = spec_duration (Some dept)) /\
  service_time_map (result (compute_stats c) w) = DEPT_SERVICE_TIME /\
  let w1 := after (@search ascii_methods (ticking 5000)
                     (Some {[ "booking_id" := VStr "b3" ]})) three_waiting in
  let stats := result (compute_stats (ticking 6000)) w1 in
  estimated_wait_min stats = 30 /\ queue_length stats = 2%nat /\
  (entry_id <$> in_progress stats) = Some (_id (ticket 1 "B1" "waiting")).
Proof.
  split; [|split; [|split; [|split]]].
  - change (estimated_wait_min (result (compute_stats c) w)) with
      (fold_left
         (fun acc appt => acc + service_time (default (VStr "General") (get "department" appt)))
         (sorted_docs (at_stats_key c) (waiting_docs w))
         match List.find (matches (q_status "in_progress")) (bookings w) with
         | Some d => 0 + service_time (default (VStr "General") (get "department" d))
         | None => 0
         end).
    rewrite fold_left_durations, (sum_durations_perm _ _ (sorted_docs_perm _ _)).
    destruct (List.find _ _); [rewrite service_time_spec|]; lia.
  - change (queue_length (result (compute_stats c) w)) with
      (length (sorted_docs (at_stats_key c) (waiting_docs w))).
    apply Permutation_length, sorted_docs_perm.
  - intros dept. exact (service_time_spec (mkDoc VNull {[ "department" := dept ]})).
  - reflexivity.
  - vm_compute. done.
Qed.

(** ** Completed today *)

Lemma matches_completed_since t0 d :
  matches [FieldIs "status" (VStr "completed"); FieldGte "completed_at" t0] d =
  completed_in t0 None d.
Proof.
  unfold matches, completed_in; simpl. rewrite !andb_true_r.
  destruct (get "completed_at" d) as [[]|]; try done. by rewrite andb_true_r.
Qed.

Lemma filter_length_split {A} (p q r : A -> bool) l :
  (forall x, p x = q x || r x) -> (forall x, q x && r x = false) ->
  length (List.filter p l) = (length (List.filter q l) + length (List.filter r l))%nat.
Proof.
  intros Hp Hqr. induction l as [|a l IH]; simpl; [done|].
  specialize (Hp a). specialize (Hqr a).
  destruct (p a), (q a), (r a); simpl in *; try done; lia.
Qed.

Lemma day_start_bounds now :
  day_start now mod day_ms = 0 /\ day_start now <= now < day_start now + day_ms.
Proof.
  unfold day_start.
  pose proof (Z.mod_pos_bound now day_ms eq_refl) as H. split; [|lia].
  rewrite Zminus_mod_idemp_r, Z.sub_diag. done.
Qed.

Lemma filter_none {A} (p : A -> bool) l :
  (forall x, In x l -> p x = false) -> List.filter p l = [].
Proof.
  induction l as [|a l IH]; simpl; [done|]. intros Hp.
  rewrite (Hp a (or_introl eq_refl)). apply IH. intros; apply Hp; by right.
Qed.

(** The count is taken from UTC midnight on, without an upper bound: it
    is the number of bookings completed within the day of the reading
    plus the number of those dated on later days. *)
Lemma completed_today_split (c : Clock) (w : World) :
  completed_today (result (compute_stats c) w) =
    length (List.filter (completed_in (day_start (at_today c)) None) (bookings w)) /\
  completed_today (result (compute_stats c) w) =
    (spec_completed_today (at_today c) w +
     length (List.filter (completed_in (day_start (at_today c) + day_ms) None)
                         (bookings w)))%nat.
Proof.
  assert (E : completed_today (result (compute_stats c) w) =
              length (List.filter (completed_in (day_start (at_today c)) None) (bookings w))).
  { change (completed_today (result (compute_stats c) w)) with
      (length (List.filter
         (matches [FieldIs "status" (VStr "completed");
                   FieldGte "completed_at" (day_start (at_today c))]) (bookings w))).
    f_equal. apply List.filter_ext, matches_completed_since. }
  split; [done|].
  rewrite E. unfold spec_completed_today. apply filter_length_split.
  - intros d. unfold completed_in. unfold day_ms.
    destruct (bool_decide _); simpl; [|done].
    destruct (get "completed_at" d) as [[| | | |t|]|]; try done.
    rewrite !andb_true_r.
    destruct (Z.leb_spec (day_start (at_today c)) t),
      (Z.ltb_spec t (day_start (at_today c) + 86400000)),
      (Z.leb_spec (day_start (at_today c) + 86400000) t); simpl; try done; lia.
  - intros d. unfold completed_in. unfold day_ms.
    destruct (bool_decide _); simpl; [|done].
    destruct (get "completed_at" d) as [[| | | |t|]|]; try done.
    rewrite !andb_true_r.
    destruct (Z.leb_spec (day_start (at_today c)) t),
      (Z.ltb_spec t (day_start (at_today c) + 86400000)),
      (Z.leb_spec (day_start (at_today c) + 86400000) t); simpl; try done; lia.
Qed.

(** C7.  In a store where no booking is completed later than the clock
    shows, [completed_today] is the number of bookings with status
    completed whose [completed_at] falls within the calendar day, in UTC,
    of the reading of the clock; the day begins at a UTC midnight, and no
    booking completed before that midnight is counted. *)
Theorem completed_today_within_day (c : Clock) (w : World) :
  completions_by (at_today c) w ->
  completed_today (result (compute_stats c) w) = spec_completed_today (at_today c) w /\
  (day_start (at_today c) mod day_ms = 0 /\
   day_start (at_today c) <= at_today c < day_start (at_today c) + day_ms) /\
  (forall d,
     completed_in (day_start (at_today c)) (Some (day_start (at_today c) + day_ms)) d = true ->
     status_is "completed" d /\
     exists t, get "completed_at" d = Some (VDate t) /\
               day_start (at_today c) <= t < day_start (at_today c) + day_ms) /\
  (forall d t, In d (bookings w) -> get "completed_at" d = Some (VDate t) ->
     t < day_start (at_today c) ->
     ~ In d (List.filter (completed_in (day_start (at_today c))
                            (Some (day_start (at_today c) + day_ms))) (bookings w))).
Proof.
  intros Hpast. pose proof (day_start_bounds (at_today c)) as B.
  split; [|split; [done|split]].
  - rewrite (proj2 (completed_today_split c w)).
    rewrite filter_none; [simpl; lia|].
    intros d Hd. apply not_true_is_false. unfold completed_in.
    rewrite andb_true_iff, bool_decide_eq_true. intros [Hs Hc].
    destruct (get "completed_at" d) as [[| | | |t|]|] eqn:E; try done.
    rewrite andb_true_r in Hc. apply Z.leb_le in Hc.
    specialize (Hpast d t Hd Hs E). lia.
  - intros d. unfold completed_in, status_is.
    rewrite andb_true_iff, bool_decide_eq_true. intros [Hs Hc]. split; [done|].
    destruct (get "completed_at" d) as [[| | | |t|]|]; try done.
    exists t. split; [done|]. apply andb_true_iff in Hc as [H1 H2].
    apply Z.leb_le in H1. apply Z.ltb_lt in H2. lia.
  - intros d t Hd E Hlt Hin. apply List.filter_In in Hin as [_ Hin].
    unfold completed_in in Hin. rewrite E in Hin.
    apply andb_true_iff in Hin as [_ Hin]. apply andb_true_iff in Hin as [Hin _].
    apply Z.leb_le in Hin. lia.
Qed.

(** ** Promotion *)

Lemma fifo_key_sort_key now d k : fifo_key d = Some k -> key now d = k.
Proof.
  unfold fifo_key, key, _sort_key_by_created_or_oid.
  destruct (get "created_at" d) as [[| | | |t|]|]; simpl; try done.
  - by intros [= ->].
  - destruct (_id d); try done. by intros [= ->].
Qed.

Lemma unique_by_id l a b :
  NoDup (map _id l) -> In a l -> In b l -> _id a = _id b -> a = b.
Proof.
  intros Hnd Ha Hb E.
  pose proof (find_by_id_unique l a Hnd Ha) as Fa.
  pose proof (find_by_id_unique l b Hnd Hb) as Fb.
  rewrite E in Fa. congruence.
Qed.

Lemma unique_ids_update_one q upd w :
  unique_ids w -> unique_ids (after (update_one q upd) w).
Proof. unfold unique_ids. by rewrite bookings_after_update_one, update_first_ids. Qed.

Lemma unique_ids_ensure_defaults now doc_id doc w :
  unique_ids w -> unique_ids (after (ensure_defaults now doc_id doc) w).
Proof. rewrite after_ensure_defaults. apply unique_ids_update_one. Qed.

Lemma in_waiting_docs w d : In d (waiting_docs w) <-> In d (bookings w) /\ status_is "waiting" d.
Proof. unfold waiting_docs. by rewrite List.filter_In, matches_status. Qed.

Lemma lookup_id_update_same i upd w d :
  lookup_id i w = Some d ->
  lookup_id i (after (update_one [IdIs i] upd) w) = Some (set_fields upd d).
Proof.
  unfold lookup_id. rewrite bookings_after_update_one. apply find_update_first_same.
Qed.

Lemma lookup_id_update_other i j upd w :
  i ≠ j -> lookup_id i (after (update_one [IdIs j] upd) w) = lookup_id i w.
Proof.
  intros H. unfold lookup_id. rewrite bookings_after_update_one.
  apply find_update_first_other. intros d Hd. apply matches_id in Hd. congruence.
Qed.

Lemma lookup_id_unique w d : unique_ids w -> In d (bookings w) -> lookup_id (_id d) w = Some d.
Proof. apply find_by_id_unique. Qed.

Lemma get_promoted now d k :
  get k (set_fields (promoted now) d) =
  if decide (k = "status") then Some (VStr "in_progress")
  else if decide (k = "started_at") then Some (VDate now)
  else get k d.
Proof.
  rewrite get_set_fields. unfold promoted. repeat case_decide; by simplify_map_eq.
Qed.

Lemma get_completed now d k :
  get k (set_fields (completed now) d) =
  if decide (k = "status") then Some (VStr "completed")
  else if decide (k = "completed_at") then Some (VDate now)
  else get k d.
Proof.
  rewrite get_set_fields. unfold completed. repeat case_decide; by simplify_map_eq.
Qed.

Lemma get_backfilled now d k :
  get k (set_fields (backfill now d) d) =
  if decide (k = "status") then Some (default (VStr "waiting") (get "status" d))
  else if decide (k = "created_at") then Some (default (VDate now) (get "created_at" d))
  else get k d.
Proof.
  rewrite get_set_fields, backfill_lookup.
  destruct (decide (k = "status")) as [->|]; [|destruct (decide (k = "created_at")) as [->|]].
  - destruct (decide (get "status" d = None)) as [E|E]; [by rewrite E|].
    by destruct (get "status" d).
  - destruct (decide (get "created_at" d = None)) as [E|E]; [by rewrite E|].
    by destruct (get "created_at" d).
  - done.
Qed.

Lemma NoDup_waiting_docs w : unique_ids w -> NoDup (waiting_docs w).
Proof.
  intros Hu. unfold waiting_docs. apply NoDup_ListNoDup, List.NoDup_filter.
  eapply List.NoDup_map_inv. apply NoDup_ListNoDup. exact Hu.
Qed.

Lemma lookup_In {A} (l : list A) (i : nat) x : l !! i = Some x -> In x l.
Proof. intros Hx. apply list_elem_of_In, list_elem_of_lookup. by exists i. Qed.

Lemma In_lookup {A} (l : list A) x : In x l -> exists i : nat, l !! i = Some x.
Proof. intros Hx. by apply list_elem_of_lookup, list_elem_of_In. Qed.

Lemma promote_step_earliest readings started w :
  unique_ids w -> promoted_earliest readings started w (promote_step readings started w).
Proof.
  intros Hu. unfold promoted_earliest, promote_step.
  destruct (sorted_docs readings (waiting_docs w)) as [|o r] eqn:S.
  { apply sorted_docs_nil in S. by rewrite S. }
  destruct (sorted_docs_head _ _ _ _ S) as (i & Hi & Hmin).
  assert (Ho : In o (waiting_docs w)) by by apply (lookup_In _ i).
  destruct (waiting_docs w) as [|x0 xs] eqn:W; [done|]. rewrite <- W in *.
  assert (Hob : In o (bookings w)) by by apply in_waiting_docs in Ho as [? _].
  assert (Hothers : forall x, In x (bookings w) -> _id x ≠ _id o ->
            lookup_id (_id x) (after (update_one [IdIs (_id o)] (promoted started)) w) = Some x).
  { intros x Hx Hne. rewrite lookup_id_update_other by done. by apply lookup_id_unique. }
  assert (Hfifo : forall ko x kx, fifo_key o = Some ko -> In x (waiting_docs w) ->
            fifo_key x = Some kx -> ko <= kx).
  { intros ko x kx Hko Hx Hkx. apply In_lookup in Hx as (j & Hj).
    specialize (Hmin j x Hj).
    by rewrite (fifo_key_sort_key _ _ _ Hko), (fifo_key_sort_key _ _ _ Hkx) in Hmin. }
  exists o, (set_fields (promoted started) o).
  split; [by exists i|]. split; [done|]. split.
  { apply lookup_id_update_same. by apply lookup_id_unique. }
  split. { unfold status_is. by rewrite get_promoted, decide_True. }
  split. { rewrite get_promoted. rewrite decide_False by done. by rewrite decide_True. }
  split. { intros k H1 H2. rewrite get_promoted. by rewrite !decide_False. }
  split; [done|]. split; [done|]. split.
  - intros a b ka kb Ha Hb Hka Hkb Hlt.
    pose proof Hb as Hb'. apply in_waiting_docs in Hb' as [Hbb Hbw]. split; [|done].
    apply Hothers; [done|]. intros E.
    assert (b = o) as -> by by apply (unique_by_id (bookings w)).
    specialize (Hfifo kb a ka Hkb Ha Hka). lia.
  - intros i' j' a b Ha Hb Hlt.
    pose proof (lookup_In _ _ _ Hb) as Hb'. apply in_waiting_docs in Hb' as [Hbb Hbw].
    split; [|done]. apply Hothers; [done|]. intros E.
    assert (b = o) as -> by by apply (unique_by_id (bookings w)).
    assert (j' = i) as ->.
    { apply (NoDup_lookup (waiting_docs w) j' i o); [by apply NoDup_waiting_docs|done|done]. }
    specialize (Hmin i' a Ha). unfold key in Hlt. lia.
Qed.

Lemma promoted_earliest_notified readings started now w1 w2 :
  promoted_earliest readings started w1 w2 ->
  promoted_earliest readings started w1 (notified now w2).
Proof. done. Qed.

Lemma filter_update_first_untouched (p : Doc -> bool) q upd l :
  (forall d, matches q d = true -> p d = false /\ p (set_fields upd d) = false) ->
  List.filter p (update_first q upd l).2 = List.filter p l.
Proof.
  intros H. induction l as [|d r IH]; simpl; [done|].
  destruct (matches q d) eqn:E; simpl.
  - destruct (H d E) as [-> ->]. done.
  - destruct (update_first q upd r) as [n r'] eqn:U; simpl in *. by rewrite IH.
Qed.

Lemma waiting_docs_after_completion now oid w :
  waiting_docs (after (update_one (q_complete oid) (completed now)) w) = waiting_docs w.
Proof.
  unfold waiting_docs. rewrite bookings_after_update_one.
  apply filter_update_first_untouched. intros d Hd. split.
  - apply not_true_is_false. rewrite matches_status.
    apply matches_q_complete in Hd as [_ Hd]. unfold status_is in *. congruence.
  - apply not_true_is_false. rewrite matches_status. unfold status_is.
    rewrite get_set_fields. unfold completed. simplify_map_eq. done.
Qed.

Lemma update_first_matches q upd l d :
  In d l -> matches q d = true -> (update_first q upd l).1 ≠ 0%nat.
Proof.
  intros Hd Hm H. rewrite update_first_unmatched in H. specialize (H d Hd). congruence.
Qed.

Section Promotion.
Variable ObjectId_of_str : string -> option ObjectId.

(** C5.  The key by which the waiting list is sorted is [created_at],
    or the creation time of the ObjectId when [created_at] is missing,
    whatever the clock shows.  When [search] succeeds and no booking is
    in progress after the backfill, and when [complete] succeeds, the
    head of the sorted waiting list is set in progress: that booking has
    status in_progress and its [started_at] afterwards, its key is the
    least of the keys of the waiting bookings, all other bookings are
    left alone, and so of two waiting bookings the one with the greater
    key is never promoted in place of the other. *)
Theorem fifo_promotion (c : Clock) (w : World) :
  unique_ids w ->
  (forall d k now, fifo_key d = Some k -> _sort_key_by_created_or_oid now d = k) /\
  (forall obj raw d,
     obj ≠ ∅ -> supplied_code obj = Some raw -> str_upper (str_strip raw) ≠ "" ->
     List.find (matches (q_booking (str_upper (str_strip raw)))) (bookings w) = Some d ->
     let w1 := after (ensure_defaults (at_default c) (_id d) d) w in
     count_in_progress w1 = 0%nat ->
     result (search c (Some obj)) w = Ok (_id d) /\
     promoted_earliest (at_key c) (at_start c) w1 (after (search c (Some obj)) w)) /\
  (forall id oid d,
     ObjectId_of_str id = Some oid ->
     In d (bookings w) -> _id d = VOid oid -> status_is "in_progress" d ->
     let w1 := after (update_one (q_complete oid) (completed (at_complete c))) w in
     waiting_docs w1 = waiting_docs w /\
     (exists stats, result (complete ObjectId_of_str c id) w = Ok stats) /\
     promoted_earliest (at_key c) (at_complete c) w1
       (after (complete ObjectId_of_str c id) w)).
Proof.
  intros Hu. split; [|split].
  - intros d k now. apply fifo_key_sort_key.
  - intros obj raw d Hobj Hraw Hcode Hfind w1 Hcount.
    assert (R : default (VStr "") (obj !! "booking_id") = VStr raw).
    { unfold supplied_code in Hraw.
      destruct (default (VStr "") (obj !! "booking_id")); try done. congruence. }
    unfold result, after. rewrite (search_found c obj raw d) by done. simpl.
    split; [done|]. unfold search_store. fold w1. rewrite decide_True by done.
    apply promoted_earliest_notified, promote_step_earliest.
    by apply unique_ids_ensure_defaults.
  - intros id oid d Hid Hd Hoid Hst w1. split; [apply waiting_docs_after_completion|].
    unfold result, after. rewrite complete_run, Hid.
    rewrite decide_False.
    2:{ apply (update_first_matches _ _ _ d); [done|]. by apply matches_q_complete. }
    simpl. split; [by eexists|]. unfold complete_store. fold w1.
    apply promoted_earliest_notified, promote_step_earliest.
    by apply unique_ids_update_one.
Qed.
End Promotion.

(** ** Completion *)

Lemma unique_ids_promote_step readings started w :
  unique_ids w -> unique_ids (promote_step readings started w).
Proof.
  intros H. unfold promote_step. destruct (sorted_docs _ _); [done|].
  by apply unique_ids_update_one.
Qed.

Lemma status_completed now d :
  status_is "completed" (set_fields (completed now) d) /\
  get "completed_at" (set_fields (completed now) d) = Some (VDate now).
Proof.
  unfold status_is. rewrite !get_set_fields. unfold completed. by simplify_map_eq.
Qed.

(** After a matching conditional update the booking under [oid] is the
    completed one. *)
Lemma lookup_id_after_completion now oid w d :
  unique_ids w -> In d (bookings w) -> _id d = VOid oid -> status_is "in_progress" d ->
  lookup_id (VOid oid) (after (update_one (q_complete oid) (completed now)) w) =
  Some (set_fields (completed now) d).
Proof.
  intros Hu Hd Hid Hst.
  assert (Hm : (update_first (q_complete oid) (completed now) (bookings w)).1 = 1%nat).
  { destruct (update_first_matched (q_complete oid) (completed now) (bookings w)) as [H|H];
      [|done].
    exfalso. revert H. apply (update_first_matches _ _ _ d); [done|].
    by apply matches_q_complete. }
  destruct (update_first_split _ _ _ Hm) as (l1 & d0 & l2 & El & Hd0 & _ & Eu).
  apply matches_q_complete in Hd0 as [Hid0 _].
  assert (d0 = d) as ->.
  { apply (unique_by_id (bookings w)); [done| |done|congruence].
    rewrite El. apply in_elt. }
  pose proof (unique_ids_update_one (q_complete oid) (completed now) w Hu) as Hu1.
  replace (VOid oid) with (_id (set_fields (completed now) d)) by done.
  apply lookup_id_unique; [done|].
  rewrite bookings_after_update_one, Eu. apply in_elt.
Qed.

Lemma promoted_earliest_keeps readings started w1 w2 x :
  unique_ids w1 -> promoted_earliest readings started w1 w2 ->
  In x (bookings w1) -> ~ status_is "waiting" x ->
  lookup_id (_id x) w2 = Some x.
Proof.
  intros Hu Hp Hx Hnw. unfold promoted_earliest in Hp.
  destruct (waiting_docs w1) as [|y ys] eqn:W.
  - unfold lookup_id. rewrite Hp. by apply lookup_id_unique.
  - rewrite <- W in Hp.
    destruct Hp as (o & o' & (i & Ho & _) & _ & _ & _ & _ & _ & Hothers & _).
    apply Hothers; [done|]. intros E. apply lookup_In, in_waiting_docs in Ho as [Ho Hw].
    assert (x = o) as -> by by apply (unique_by_id (bookings w1)).
    done.
Qed.

Lemma lookup_id_complete_store c oid w d :
  unique_ids w -> In d (bookings w) -> _id d = VOid oid -> status_is "in_progress" d ->
  lookup_id (VOid oid) (complete_store c oid w) =
  Some (set_fields (completed (at_complete c)) d).
Proof.
  intros Hu Hd Hid Hst. unfold complete_store.
  set (w1 := after (update_one (q_complete oid) (completed (at_complete c))) w).
  pose proof (lookup_id_after_completion (at_complete c) oid w d Hu Hd Hid Hst) as L.
  fold w1 in L.
  change (lookup_id (VOid oid) (notified (at_notify c) ?x)) with (lookup_id (VOid oid) x).
  replace (VOid oid) with (_id (set_fields (completed (at_complete c)) d)) by done.
  apply (promoted_earliest_keeps (at_key c) (at_complete c) w1).
  - by apply unique_ids_update_one.
  - apply promote_step_earliest. by apply unique_ids_update_one.
  - unfold lookup_id in L. by apply List.find_some in L as [L _].
  - destruct (status_completed (at_complete c) d) as [S _]. unfold status_is in *. congruence.
Qed.

Lemma in_progress_dec oid w :
  {exists d, In d (bookings w) /\ _id d = VOid oid /\ status_is "in_progress" d} +
  {~ exists d, In d (bookings w) /\ _id d = VOid oid /\ status_is "in_progress" d}.
Proof.
  destruct (List.find (matches (q_complete oid)) (bookings w)) as [d|] eqn:F.
  - left. apply List.find_some in F as [Hd Hm]. apply matches_q_complete in Hm as [? ?].
    by exists d.
  - right. intros (d & Hd & H1 & H2). rewrite find_none_iff in F.
    specialize (F d Hd). apply not_true_iff_false in F. apply F.
    by apply matches_q_complete.
Qed.

Section Completion.
Variable ObjectId_of_str : string -> option ObjectId.

Lemma complete_not_found c id oid w :
  ObjectId_of_str id = Some oid ->
  (forall d, In d (bookings w) -> ~ (_id d = VOid oid /\ status_is "in_progress" d)) ->
  complete ObjectId_of_str c id w =
  (Error 404 "No in-progress appointment with that ID", w).
Proof.
  intros Hid Hnone. rewrite complete_run, Hid. rewrite decide_True; [done|].
  apply update_first_unmatched. intros d Hd. apply not_true_is_false.
  rewrite matches_q_complete. by apply Hnone.
Qed.

Lemma complete_found c id oid w d :
  ObjectId_of_str id = Some oid ->
  In d (bookings w) -> _id d = VOid oid -> status_is "in_progress" d ->
  complete ObjectId_of_str c id w =
  (Ok (result (compute_stats c) (complete_store c oid w)), complete_store c oid w).
Proof.
  intros Hid Hd Hoid Hst. rewrite complete_run, Hid. rewrite decide_False; [done|].
  apply (update_first_matches _ _ _ d); [done|]. by apply matches_q_complete.
Qed.

(** C3.  For the text of an ObjectId and a store with unique
    identifiers: [complete] succeeds exactly when a booking with that
    identifier has status in_progress, and then that booking has status
    completed and completed_at set to the reading of the clock that the
    call took first; otherwise it answers 404 and leaves the store as it
    was.  A second call with the same identifier, right after the first,
    answers 404. *)
Theorem complete_iff_in_progress (c : Clock) (id : string) (oid : ObjectId) (w : World) :
  unique_ids w ->
  ObjectId_of_str id = Some oid ->
  let r := result (complete ObjectId_of_str c id) w in
  let w' := after (complete ObjectId_of_str c id) w in
  ((exists stats, r = Ok stats) <->
   (exists d, In d (bookings w) /\ _id d = VOid oid /\ status_is "in_progress" d)) /\
  (forall d, In d (bookings w) -> _id d = VOid oid -> status_is "in_progress" d ->
     exists d',
       lookup_id (VOid oid) w' = Some d' /\ status_is "completed" d' /\
       get "completed_at" d' = Some (VDate (at_complete c)) /\
       forall k, k ≠ "status" -> k ≠ "completed_at" -> get k d' = get k d) /\
  (~ (exists d, In d (bookings w) /\ _id d = VOid oid /\ status_is "in_progress" d) ->
   r = Error 404 "No in-progress appointment with that ID" /\ w' = w) /\
  (forall c2,
     result (complete ObjectId_of_str c2 id) w' =
     Error 404 "No in-progress appointment with that ID").
Proof.
  intros Hu Hid r w'.
  assert (Hno : ~ (exists d, In d (bookings w) /\ _id d = VOid oid /\ status_is "in_progress" d) ->
                complete ObjectId_of_str c id w =
                (Error 404 "No in-progress appointment with that ID", w)).
  { intros Hn. apply (complete_not_found c id oid); [done|].
    intros d Hd [H1 H2]. apply Hn. by exists d. }
  assert (Hyes : forall d, In d (bookings w) -> _id d = VOid oid -> status_is "in_progress" d ->
            r = Ok (result (compute_stats c) (complete_store c oid w)) /\
            w' = complete_store c oid w).
  { intros d Hd Hoid Hst. unfold r, w', result, after.
    by rewrite (complete_found c id oid w d). }
  split; [|split; [|split]].
  - split.
    + intros [stats Hr].
      destruct (in_progress_dec oid w) as [H|H]; [done|].
      unfold r, result in Hr. by rewrite (Hno H) in Hr.
    + intros (d & Hd & Hoid & Hst). destruct (Hyes d Hd Hoid Hst) as [-> _]. by eexists.
  - intros d Hd Hoid Hst. destruct (Hyes d Hd Hoid Hst) as [_ ->].
    exists (set_fields (completed (at_complete c)) d). split; [by apply lookup_id_complete_store|].
    destruct (status_completed (at_complete c) d) as [S C]. split; [done|]. split; [done|].
    intros k Hk1 Hk2. rewrite get_set_fields. unfold completed. by simplify_map_eq.
  - intros Hn. unfold r, w', result, after. by rewrite (Hno Hn).
  - intros c2. unfold result.
    destruct (in_progress_dec oid w) as [(d & Hd & Hoid & Hst)|H].
    + destruct (Hyes d Hd Hoid Hst) as [_ ->].
      rewrite (complete_not_found c2 id oid); [done|done|].
      intros e He [Heid Hest].
      assert (Hu' : unique_ids (complete_store c oid w)).
      { unfold complete_store, unique_ids. simpl.
        by apply unique_ids_promote_step, unique_ids_update_one. }
      pose proof (lookup_id_complete_store c oid w d Hu Hd Hoid Hst) as L.
      rewrite <- Heid in L. rewrite (lookup_id_unique _ e Hu' He) in L.
      injection L as ->. destruct (status_completed (at_complete c) d) as [S _].
      unfold status_is in *. congruence.
    + unfold w', after. rewrite (Hno H). simpl.
      rewrite (complete_not_found c2 id oid); [done|done|].
      intros d Hd [H1 H2]. apply H. by exists d.
Qed.
End Completion.

(** ** The looked-up booking *)

Lemma backfill_keeps_in_progress now d :
  matches (q_status "in_progress") (set_fields (backfill now d) d) =
  matches (q_status "in_progress") d.
Proof.
  apply eq_true_iff_eq. rewrite !matches_status. unfold status_is.
  rewrite get_set_fields, backfill_lookup. rewrite decide_True by done.
  case_decide as E; [|done]. rewrite E. done.
Qed.

Lemma count_in_progress_backfill now d w :
  unique_ids w -> In d (bookings w) ->
  count_in_progress (after (ensure_defaults now (_id d) d) w) = count_in_progress w.
Proof.
  intros Hu Hd. rewrite after_ensure_defaults, !count_in_progress_eq, bookings_after_update_one.
  destruct (update_first_matched [IdIs (_id d)] (backfill now d) (bookings w)) as [H|H].
  - by rewrite update_first_unmatched_same.
  - destruct (count_update_first (matches (q_status "in_progress")) _ _ _ H)
      as (d0 & Hd0 & Hm & E).
    apply matches_id in Hm.
    assert (d0 = d) as -> by by apply (unique_by_id (bookings w)).
    rewrite backfill_keeps_in_progress in E. lia.
Qed.

(** C2, the claim as stated fails: with three bookings waiting and none
    in progress, a search for the first one sets that very booking in
    progress. *)
Lemma search_promotes_looked_up :
  ~ @status_untouched_by_search ascii_methods (ticking 5000)
      (Some {[ "booking_id" := VStr "b1" ]}) three_waiting.
Proof.
  intros H. specialize (H (_id (ticket 1 "B1" "waiting")) eq_refl).
  vm_compute in H. discriminate H.
Qed.

(** C2, amended.  In a store with unique identifiers a successful
    [search] changes the status of the booking it looked up in two ways
    only: the backfill gives it the status waiting when it had none, and
    the promotion sets it in progress when no booking is in progress and
    it is the head of the sorted waiting list.  When a booking is in
    progress, when no booking waits, or when the head of the sorted
    waiting list is another booking, the looked-up booking keeps the
    status it had, or has the status waiting if it had none. *)
Theorem search_status_of_looked_up
    (c : Clock) (obj : gmap string Value) (raw : string) (d : Doc) (w : World) :
  unique_ids w ->
  obj ≠ ∅ -> supplied_code obj = Some raw -> str_upper (str_strip raw) ≠ "" ->
  List.find (matches (q_booking (str_upper (str_strip raw)))) (bookings w) = Some d ->
  let w' := after (search c (Some obj)) w in
  let w1 := after (ensure_defaults (at_default c) (_id d) d) w in
  let d1 := result (ensure_defaults (at_default c) (_id d) d) w in
  result (search c (Some obj)) w = Ok (_id d) /\
  get "status" d1 = Some (default (VStr "waiting") (get "status" d)) /\
  (count_in_progress w ≠ 0%nat -> lookup_id (_id d) w' = Some d1) /\
  (waiting_docs w1 = [] -> lookup_id (_id d) w' = Some d1) /\
  (forall o, head (sorted_docs (at_key c) (waiting_docs w1)) = Some o -> _id o ≠ _id d ->
     lookup_id (_id d) w' = Some d1) /\
  (count_in_progress w = 0%nat ->
   head (sorted_docs (at_key c) (waiting_docs w1)) = Some d1 ->
   lookup_id (_id d) w' = Some (set_fields (promoted (at_start c)) d1) /\
   status_is "in_progress" (set_fields (promoted (at_start c)) d1)).
Proof.
  intros Hu Hobj Hraw Hcode Hfind w' w1 d1.
  assert (R : default (VStr "") (obj !! "booking_id") = VStr raw).
  { unfold supplied_code in Hraw.
    destruct (default (VStr "") (obj !! "booking_id")); try done. congruence. }
  assert (Hd : In d (bookings w)) by by apply List.find_some in Hfind as [? _].
  assert (Hw' : w' = search_store c d w).
  { unfold w', after. by rewrite (search_found c obj raw d). }
  assert (Hc : count_in_progress w1 = count_in_progress w)
    by by apply count_in_progress_backfill.
  assert (L1 : lookup_id (_id d) w1 = Some d1).
  { unfold w1, d1. rewrite after_ensure_defaults, result_ensure_defaults.
    apply lookup_id_update_same. by apply lookup_id_unique. }
  assert (Hstore : w' = notified (at_notify c)
                          (if decide (count_in_progress w = 0%nat)
                           then promote_step (at_key c) (at_start c) w1 else w1)).
  { rewrite Hw'. unfold search_store. fold w1. rewrite Hc. done. }
  split. { unfold result. by rewrite (search_found c obj raw d). }
  split.
  { unfold d1. rewrite result_ensure_defaults, get_set_fields, backfill_lookup.
    rewrite decide_True by done.
    destruct (decide (get "status" d = None)) as [E|E]; [by rewrite E|].
    by destruct (get "status" d). }
  split. { intros Hn. rewrite Hstore. by rewrite decide_False. }
  split.
  { intros Hnil. rewrite Hstore.
    destruct (decide (count_in_progress w = 0%nat)); [|done].
    unfold promote_step. by rewrite Hnil. }
  split.
  { intros o Ho Hne. rewrite Hstore.
    destruct (decide (count_in_progress w = 0%nat)); [|done].
    unfold promote_step. destruct (sorted_docs (at_key c) (waiting_docs w1)); [done|].
    injection Ho as ->.
    change (lookup_id (_id d) (notified (at_notify c) ?x)) with (lookup_id (_id d) x).
    by rewrite lookup_id_update_other. }
  intros H0 Ho. rewrite Hstore. rewrite decide_True by done. split.
  - unfold promote_step. destruct (sorted_docs (at_key c) (waiting_docs w1)); [done|].
    injection Ho as ->.
    change (lookup_id (_id d) (notified (at_notify c) ?x)) with (lookup_id (_id d) x).
    replace (_id d1) with (_id d) by (unfold d1; by rewrite result_ensure_defaults).
    by apply lookup_id_update_same.
  - unfold status_is. rewrite get_set_fields. unfold promoted. by simplify_map_eq.
Qed.

(** * Further properties of the handlers *)

(** ** Bookings are never added, removed or reordered *)

Lemma ids_promote_step readings started w :
  map _id (bookings (promote_step readings started w)) = map _id (bookings w).
Proof.
  unfold promote_step. destruct (sorted_docs _ _); [done|].
  by rewrite bookings_after_update_one, update_first_ids.
Qed.

Lemma ids_search_store c d w : map _id (bookings (search_store c d w)) = map _id (bookings w).
Proof.
  unfold search_store. simpl.
  assert (E : map _id (bookings (after (ensure_defaults (at_default c) (_id d) d) w)) =
              map _id (bookings w)).
  { by rewrite after_ensure_defaults, bookings_after_update_one, update_first_ids. }
  destruct (decide _); [by rewrite ids_promote_step|done].
Qed.

Lemma ids_complete_store c oid w :
  map _id (bookings (complete_store c oid w)) = map _id (bookings w).
Proof.
  unfold complete_store. simpl.
  by rewrite ids_promote_step, bookings_after_update_one, update_first_ids.
Qed.

Section Shape.
Variable ObjectId_of_str : string -> option ObjectId.

Lemma ids_handle w r : map _id (bookings (handle ObjectId_of_str w r)) = map _id (bookings w).
Proof.
  destruct r as [c data|c id|c]; simpl.
  - unfold after.
    destruct (search_cases c data w) as [[msg ->]|[->|(obj & raw & _ & _ & _ & _ & Hc)]];
      try done.
    destruct (List.find _ _) as [d|]; rewrite Hc; simpl; [|done].
    apply ids_search_store.
  - unfold after. rewrite complete_run.
    destruct (ObjectId_of_str id) as [oid|]; [|done].
    destruct (decide _); simpl; [done|]. apply ids_complete_store.
  - by rewrite compute_stats_after.
Qed.

(** X3.  Whatever requests are served, the collection keeps its
    documents in place: the list of [_id]s after the requests is the list
    before them, so no booking is added, removed or moved, and unique
    identifiers stay unique. *)
Theorem serve_keeps_ids (rs : list Request) (w : World) :
  map _id (bookings (serve ObjectId_of_str rs w)) = map _id (bookings w) /\
  length (bookings (serve ObjectId_of_str rs w)) = length (bookings w) /\
  (unique_ids w <-> unique_ids (serve ObjectId_of_str rs w)).
Proof.
  assert (E : map _id (bookings (serve ObjectId_of_str rs w)) = map _id (bookings w)).
  { unfold serve. revert w. induction rs as [|r rs IH]; intros w; simpl; [done|].
    by rewrite IH, ids_handle. }
  split; [done|]. split.
  - by rewrite <- (length_map _id), E, length_map.
  - unfold unique_ids. by rewrite E.
Qed.

End Shape.

(** ** The change signal *)

Lemma fold_left_max_spec (r : list Z) (t : Z) :
  t <= fold_left Z.max r t /\
  (forall x, In x r -> x <= fold_left Z.max r t) /\
  In (fold_left Z.max r t) (t :: r).
Proof.
  revert t. induction r as [|a r IH]; intros t; simpl.
  - split; [lia|]. split; [done|]. by left.
  - destruct (IH (Z.max t a)) as (H1 & H2 & H3). split; [lia|]. split.
    + intros x [<-|Hx]; [lia|by apply H2].
    + destruct H3 as [H3|H3]; [|by right; right].
      rewrite <- H3. destruct (Z.max_spec t a) as [[_ ->]|[_ ->]]; [right; by left|by left].
Qed.

Lemma latest_instant_notified now w :
  latest_instant (notified now w) =
  match updates w with
  | [] => now
  | _ => Z.max (latest_instant w) now
  end.
Proof.
  unfold latest_instant, result, get_latest_update_ts, notified.
  rewrite !run_bind. unfold result, find_latest_update; simpl.
  destruct (updates w) as [|t r]; simpl; [done|].
  by rewrite fold_left_app.
Qed.

(** X9.  [get_latest_update_ts] answers the epoch for a store without
    markers; otherwise it answers the [ts] of a marker of the store, and
    no marker of the store has a later [ts]. *)
Theorem latest_update_is_maximum (w : World) :
  after get_latest_update_ts w = w /\
  (updates w = [] -> result get_latest_update_ts w = 0) /\
  (updates w ≠ [] ->
   In (result get_latest_update_ts w) (updates w) /\
   forall t, In t (updates w) -> t <= result get_latest_update_ts w).
Proof.
  split; [done|]. unfold result, get_latest_update_ts. rewrite run_bind.
  unfold result, find_latest_update; simpl.
  destruct (updates w) as [|t r]; simpl.
  - split; [done|]. by intros [].
  - split; [done|]. intros _. destruct (fold_left_max_spec r t) as (H1 & H2 & H3).
    split; [done|]. intros x [<-|Hx]; [done|by apply H2].
Qed.

Section Signal.
Variable ObjectId_of_str : string -> option ObjectId.

Lemma marker_iff_success_aux (c : Clock) (w : World) :
  (forall data,
     updates (after (search c data) w) =
     match result (search c data) w with
     | Ok _ => updates w ++ [at_notify c]
     | _ => updates w
     end) /\
  (forall id,
     updates (after (complete ObjectId_of_str c id) w) =
     match result (complete ObjectId_of_str c id) w with
     | Ok _ => updates w ++ [at_notify c]
     | _ => updates w
     end).
Proof.
  split.
  - intros data. unfold after, result.
    destruct (search_cases c data w) as [[msg ->]|[->|(obj & raw & _ & _ & _ & _ & Hc)]];
      try done.
    destruct (List.find _ _) as [d|]; rewrite Hc; simpl; [|done].
    f_equal. destruct (decide _); [|by rewrite after_ensure_defaults, updates_after_update_one].
    unfold promote_step. destruct (sorted_docs _ _).
    + by rewrite after_ensure_defaults, updates_after_update_one.
    + by rewrite updates_after_update_one, after_ensure_defaults, updates_after_update_one.
  - intros id. unfold after, result. rewrite complete_run.
    destruct (ObjectId_of_str id) as [oid|]; [|done].
    destruct (decide _); simpl; [done|]. f_equal.
    unfold promote_step. destruct (sorted_docs _ _).
    + by rewrite updates_after_update_one.
    + by rewrite !updates_after_update_one.
Qed.

(** X1.  A request writes a marker exactly when it succeeds: after a
    successful [search] or [complete] the markers are those before it
    followed by one with the reading of the clock that [notify_update]
    took, and after a failed one they are unchanged. *)
Theorem marker_iff_success (c : Clock) (w : World) :
  (forall data,
     updates (after (search c data) w) =
     match result (search c data) w with
     | Ok _ => updates w ++ [at_notify c]
     | _ => updates w
     end) /\
  (forall id,
     updates (after (complete ObjectId_of_str c id) w) =
     match result (complete ObjectId_of_str c id) w with
     | Ok _ => updates w ++ [at_notify c]
     | _ => updates w
     end).
Proof. exact (marker_iff_success_aux c w). Qed.

Lemma updates_handle w r :
  updates (handle ObjectId_of_str w r) = updates w \/
  updates (handle ObjectId_of_str w r) = updates w ++ [request_time r].
Proof.
  destruct r as [c data|c id|c]; simpl.
  - rewrite (proj1 (marker_iff_success_aux c w)). destruct (result _ _); auto.
  - rewrite (proj2 (marker_iff_success_aux c w)). destruct (result _ _); auto.
  - left. by rewrite compute_stats_after.
Qed.

Lemma latest_instant_handle w r :
  0 <= request_time r -> latest_instant w <= latest_instant (handle ObjectId_of_str w r).
Proof.
  intros H0. destruct (updates_handle w r) as [E|E].
  - unfold latest_instant, result, get_latest_update_ts. rewrite !run_bind.
    unfold result, find_latest_update; simpl. rewrite E. lia.
  - pose proof (latest_instant_notified (request_time r) w) as L.
    unfold latest_instant, result, get_latest_update_ts in *. rewrite !run_bind in *.
    unfold result, find_latest_update, notified in *; simpl in *. rewrite E.
    destruct (updates w) as [|t l] eqn:U; simpl in *; [lia|].
    rewrite fold_left_app; simpl. lia.
Qed.

(** X10.  The markers only grow: after any sequence of requests the
    markers of the store are those before it, followed by new ones.  When
    no request carries a time before the epoch, the latest marker never
    moves back. *)
Theorem signal_never_moves_back (rs : list Request) (w : World) :
  (exists new, updates (serve ObjectId_of_str rs w) = updates w ++ new) /\
  (Forall (fun r => 0 <= request_time r) rs ->
   latest_instant w <= latest_instant (serve ObjectId_of_str rs w)).
Proof.
  unfold serve. split.
  - revert w. induction rs as [|r rs IH]; intros w; simpl.
    + exists []. by rewrite app_nil_r.
    + destruct (IH (handle ObjectId_of_str w r)) as [new E]. rewrite E.
      destruct (updates_handle w r) as [->| ->]; [by exists new|].
      exists (request_time r :: new). by rewrite <- app_assoc.
  - revert w. induction rs as [|r rs IH]; intros w Hrs; simpl; [lia|].
    apply Forall_cons in Hrs as [Hr Hrs].
    specialize (IH (handle ObjectId_of_str w r) Hrs).
    pose proof (latest_instant_handle w r Hr). lia.
Qed.

End Signal.

(** ** One write, booking by booking *)

Lemma Forall2_compose {A} (R S : A -> A -> Prop) l1 l2 l3 :
  Forall2 R l1 l2 -> Forall2 S l2 l3 ->
  Forall2 (fun a c => exists b, R a b /\ S b c) l1 l3.
Proof.
  intros H. revert l3. induction H as [|a b l1 l2 Hab H IH]; intros l3 H'.
  - inversion H'. constructor.
  - inversion H' as [|b' c l2' l3' Hbc H'' E1 E2]; subst. constructor; [by exists b|by apply IH].
Qed.

Lemma Forall2_same {A} (R : A -> A -> Prop) l : (forall a, R a a) -> Forall2 R l l.
Proof. intros H. induction l; by constructor. Qed.

Lemma update_first_Forall2 q upd l :
  Forall2 (fun d d' => d' = d \/ (In d l /\ matches q d = true /\ d' = set_fields upd d))
          l (update_first q upd l).2.
Proof.
  induction l as [|a r IH]; simpl; [constructor|].
  destruct (matches q a) eqn:E; simpl.
  - constructor; [right; auto|]. apply Forall2_same. by left.
  - destruct (update_first q upd r) as [n r'] eqn:U; simpl in *.
    constructor; [by left|].
    eapply Forall2_impl; [exact IH|]. intros d d' [->|(H1 & H2 & H3)]; [by left|].
    right. auto.
Qed.

Lemma backfill_Forall2 now d0 w :
  unique_ids w -> In d0 (bookings w) ->
  Forall2 (backfilled now) (bookings w)
          (bookings (after (ensure_defaults now (_id d0) d0) w)).
Proof.
  intros Hu Hd0. rewrite after_ensure_defaults, bookings_after_update_one.
  eapply Forall2_impl; [apply update_first_Forall2|].
  intros d d' [->|(Hd & Hm & ->)]; [by left|]. right.
  apply matches_id in Hm.
  assert (d = d0) as -> by by apply (unique_by_id (bookings w)).
  done.
Qed.

Lemma promote_step_Forall2 readings now w :
  unique_ids w ->
  Forall2 (promoted_from now) (bookings w) (bookings (promote_step readings now w)).
Proof.
  intros Hu. unfold promote_step.
  destruct (sorted_docs readings (waiting_docs w)) as [|o r] eqn:S.
  { apply Forall2_same. by left. }
  assert (Ho : In o (waiting_docs w)).
  { apply (sorted_docs_In readings). rewrite S. by left. }
  apply in_waiting_docs in Ho as [Ho Hw].
  rewrite bookings_after_update_one.
  eapply Forall2_impl; [apply update_first_Forall2|].
  intros d d' [->|(Hd & Hm & ->)]; [by left|]. right.
  apply matches_id in Hm.
  assert (d = o) as -> by by apply (unique_by_id (bookings w)).
  done.
Qed.

Lemma completion_Forall2 now oid w :
  Forall2 (completed_from now) (bookings w)
          (bookings (after (update_one (q_complete oid) (completed now)) w)).
Proof.
  rewrite bookings_after_update_one.
  eapply Forall2_impl; [apply update_first_Forall2|].
  intros d d' [->|(Hd & Hm & ->)]; [by left|]. right.
  apply matches_q_complete in Hm as [_ Hm]. done.
Qed.

Lemma doc_moves_refl d : doc_moves d d.
Proof. repeat split; try done. constructor. Qed.

Lemma doc_moves_promoted now d : status_is "waiting" d -> doc_moves d (set_fields (promoted now) d).
Proof.
  intros Hw. split; [done|]. split; [|split].
  - rewrite get_promoted, decide_True by done. rewrite Hw. constructor.
  - intros _. rewrite get_promoted. by rewrite !decide_False by done.
  - intros k H1 H2 H3 H4. rewrite get_promoted. by rewrite !decide_False by done.
Qed.

Lemma doc_moves_completed now d :
  status_is "in_progress" d -> doc_moves d (set_fields (completed now) d).
Proof.
  intros Hw. split; [done|]. split; [|split].
  - rewrite get_completed, decide_True by done. rewrite Hw. constructor.
  - intros _. rewrite get_completed. by rewrite !decide_False by done.
  - intros k H1 H2 H3 H4. rewrite get_completed. by rewrite !decide_False by done.
Qed.

Lemma doc_moves_search now started d d1 d2 :
  backfilled now d d1 -> promoted_from started d1 d2 -> doc_moves d d2.
Proof.
  intros [->| ->] [->|[Hw ->]].
  - apply doc_moves_refl.
  - by apply doc_moves_promoted.
  - split; [done|]. split; [|split].
    + rewrite get_backfilled, decide_True by done.
      destruct (get "status" d); simpl; constructor.
    + intros [c Hc]. rewrite get_backfilled. rewrite decide_False by done.
      rewrite decide_True by done. by rewrite Hc.
    + intros k H1 H2 H3 H4. rewrite get_backfilled. by rewrite !decide_False by done.
  - unfold status_is in Hw. rewrite get_backfilled, decide_True in Hw by done.
    split; [done|]. split; [|split].
    + rewrite get_promoted, decide_True by done.
      destruct (get "status" d) as [v|]; simpl in *; [|constructor].
      injection Hw as ->. constructor.
    + intros [c Hc]. rewrite get_promoted. rewrite !decide_False by done.
      rewrite get_backfilled. rewrite decide_False by done.
      rewrite decide_True by done. by rewrite Hc.
    + intros k H1 H2 H3 H4. rewrite get_promoted. rewrite !decide_False by done.
      rewrite get_backfilled. by rewrite !decide_False by done.
Qed.

Lemma doc_moves_complete now started d d1 d2 :
  completed_from now d d1 -> promoted_from started d1 d2 -> doc_moves d d2.
Proof.
  intros [->|[Hp ->]] [->|[Hw ->]].
  - apply doc_moves_refl.
  - by apply doc_moves_promoted.
  - by apply doc_moves_completed.
  - unfold status_is in Hw. rewrite get_completed, decide_True in Hw by done. done.
Qed.

Lemma search_store_moves c d w :
  unique_ids w -> In d (bookings w) ->
  Forall2 doc_moves (bookings w) (bookings (search_store c d w)).
Proof.
  intros Hu Hd. unfold search_store. simpl.
  pose proof (backfill_Forall2 (at_default c) d w Hu Hd) as HB.
  set (w1 := after (ensure_defaults (at_default c) (_id d) d) w) in *.
  assert (Hu1 : unique_ids w1) by by apply unique_ids_ensure_defaults.
  destruct (decide (count_in_progress w1 = 0%nat)).
  - eapply Forall2_impl;
      [exact (Forall2_compose _ _ _ _ _ HB
                (promote_step_Forall2 (at_key c) (at_start c) w1 Hu1))|].
    intros a z (b & H1 & H2). by apply (doc_moves_search (at_default c) (at_start c) a b z).
  - eapply Forall2_impl; [exact HB|].
    intros a b H1. apply (doc_moves_search (at_default c) (at_start c) a b b); [done|by left].
Qed.

Lemma complete_store_moves c oid w :
  unique_ids w -> Forall2 doc_moves (bookings w) (bookings (complete_store c oid w)).
Proof.
  intros Hu. unfold complete_store. simpl.
  pose proof (completion_Forall2 (at_complete c) oid w) as HC.
  set (w1 := after (update_one (q_complete oid) (completed (at_complete c))) w) in *.
  assert (Hu1 : unique_ids w1) by by apply unique_ids_update_one.
  eapply Forall2_impl;
    [exact (Forall2_compose _ _ _ _ _ HC
              (promote_step_Forall2 (at_key c) (at_complete c) w1 Hu1))|].
  intros a z (b & H1 & H2).
  by apply (doc_moves_complete (at_complete c) (at_complete c) a b z).
Qed.

Lemma rtc_from_completed s :
  rtc status_moves (Some (VStr "completed")) s -> s = Some (VStr "completed").
Proof.
  intros H. remember (Some (VStr "completed")) as c eqn:E.
  induction H as [|x y z Hxy _ IH]; [done|]. subst x.
  inversion Hxy; subst. by apply IH.
Qed.

Lemma rtc_from_in_progress s :
  rtc status_moves (Some (VStr "in_progress")) s ->
  s = Some (VStr "in_progress") \/ s = Some (VStr "completed").
Proof.
  intros H. remember (Some (VStr "in_progress")) as c eqn:E.
  induction H as [|x y z Hxy Hyz IH]; [by left|]. subst x.
  inversion Hxy; subst; [by apply IH|]. right. by apply rtc_from_completed.
Qed.

Lemma doc_history_refl d : doc_history d d.
Proof. repeat split; try done. by left. Qed.

Lemma doc_history_step a b c : doc_moves a b -> doc_history b c -> doc_history a c.
Proof.
  intros (I1 & S1 & _ & K1) (I2 & S2 & _ & _ & K2).
  assert (R : rtc status_moves (get "status" a) (get "status" c)) by by eapply rtc_l.
  split; [congruence|]. split; [done|]. split; [|split].
  - unfold status_is. intros E. rewrite E in R. by apply rtc_from_completed.
  - unfold status_is. intros E. rewrite E in R. by apply rtc_from_in_progress.
  - intros k H1 H2 H3 H4. rewrite K2, K1 by done. done.
Qed.

Section Forward.
Variable ObjectId_of_str : string -> option ObjectId.

Lemma handle_moves w r :
  unique_ids w -> Forall2 doc_moves (bookings w) (bookings (handle ObjectId_of_str w r)).
Proof.
  intros Hu. destruct r as [c data|c id|c]; simpl.
  - unfold after.
    destruct (search_cases c data w) as [[msg ->]|[->|(obj & raw & _ & _ & _ & _ & Hc)]];
      try (apply Forall2_same, doc_moves_refl).
    destruct (List.find _ _) as [d|] eqn:F; rewrite Hc; simpl.
    + apply search_store_moves; [done|]. by apply List.find_some in F as [? _].
    + apply Forall2_same, doc_moves_refl.
  - unfold after. rewrite complete_run.
    destruct (ObjectId_of_str id) as [oid|]; [|apply Forall2_same, doc_moves_refl].
    destruct (decide _); simpl; [apply Forall2_same, doc_moves_refl|].
    by apply complete_store_moves.
  - rewrite compute_stats_after. apply Forall2_same, doc_moves_refl.
Qed.

(** X4.  In a store with unique identifiers one request moves the
    status of each booking forward or not at all: from none to waiting or
    in_progress, from waiting to in_progress, from in_progress to
    completed.  It keeps the [_id] and a present [created_at], and writes
    no field but [status], [created_at], [started_at] and [completed_at]. *)
Theorem request_moves_forward (w : World) (r : Request) :
  unique_ids w ->
  Forall2 doc_moves (bookings w) (bookings (handle ObjectId_of_str w r)).
Proof. apply handle_moves. Qed.

(** X5.  In a store with unique identifiers, along any sequence of
    requests a status only moves forward: a completed booking stays
    completed, a booking in progress stays in progress or becomes
    completed, and a status that is none of the three is never written. *)
Theorem status_never_moves_back (rs : list Request) (w : World) :
  unique_ids w ->
  Forall2 doc_history (bookings w) (bookings (serve ObjectId_of_str rs w)) /\
  forall (n : nat) d d' v,
    bookings w !! n = Some d -> bookings (serve ObjectId_of_str rs w) !! n = Some d' ->
    get "status" d = Some v ->
    v ≠ VStr "waiting" -> v ≠ VStr "in_progress" -> get "status" d' = Some v.
Proof.
  intros Hu.
  assert (H : Forall2 doc_history (bookings w) (bookings (serve ObjectId_of_str rs w))).
  { unfold serve. revert w Hu. induction rs as [|r rs IH]; intros w Hu; simpl.
    - apply Forall2_same, doc_history_refl.
    - assert (Hu' : unique_ids (handle ObjectId_of_str w r)).
      { unfold unique_ids. by rewrite ids_handle. }
      eapply Forall2_impl;
        [exact (Forall2_compose _ _ _ _ _ (handle_moves w r Hu) (IH _ Hu'))|].
      intros a c (b & H1 & H2). by apply (doc_history_step a b c). }
  split; [done|].
  intros n d d' v Hn Hn' Hv Hw Hp.
  destruct (Forall2_lookup_lr _ _ _ _ _ _ H Hn Hn') as (_ & R & _).
  rewrite Hv in R. clear -R Hw Hp.
  remember (Some v) as s eqn:E. revert v E Hw Hp.
  induction R as [|x y z Hxy _ IH]; intros v E Hw Hp; [done|]. subst x.
  inversion Hxy; subst; try done. by apply (IH v).
Qed.

End Forward.

(** ** The slot is not left empty *)

Lemma promote_step_busy readings now w :
  count_in_progress (promote_step readings now w) = 0%nat ->
  waiting_docs (promote_step readings now w) = [].
Proof.
  unfold promote_step. destruct (sorted_docs readings (waiting_docs w)) as [|o r] eqn:S.
  { intros _. by apply sorted_docs_nil in S. }
  intros H0. exfalso.
  assert (Ho : In o (waiting_docs w)).
  { apply (sorted_docs_In readings). rewrite S. by left. }
  apply in_waiting_docs in Ho as [Ho _].
  rewrite count_in_progress_eq, bookings_after_update_one in H0.
  assert (Hm : (update_first [IdIs (_id o)] (promoted now) (bookings w)).1 = 1%nat).
  { destruct (update_first_matched [IdIs (_id o)] (promoted now) (bookings w)) as [H|H];
      [|done].
    exfalso. revert H. apply (update_first_matches _ _ _ o); [done|]. by apply matches_id. }
  destruct (update_first_split _ _ _ Hm) as (l1 & d & l2 & _ & _ & _ & E).
  assert (P : matches (q_status "in_progress") (set_fields (promoted now) d) = true).
  { apply matches_status. unfold status_is. by rewrite get_promoted, decide_True. }
  rewrite E, count_app in H0. unfold count in H0. simpl in H0. rewrite P in H0.
  simpl in H0. lia.
Qed.

Section Busy.
Variable ObjectId_of_str : string -> option ObjectId.

(** X2.  After a successful [search] or [complete] the slot is not left
    empty while a booking waits: if no booking is in progress then none
    is waiting. *)
Theorem slot_taken_after_success (c : Clock) (w : World) :
  (forall data i,
     result (search c data) w = Ok i ->
     count_in_progress (after (search c data) w) = 0%nat ->
     waiting_docs (after (search c data) w) = []) /\
  (forall id stats,
     result (complete ObjectId_of_str c id) w = Ok stats ->
     count_in_progress (after (complete ObjectId_of_str c id) w) = 0%nat ->
     waiting_docs (after (complete ObjectId_of_str c id) w) = []).
Proof.
  split.
  - intros data i. unfold result, after.
    destruct (search_cases c data w) as [[msg ->]|[->|(obj & raw & _ & _ & _ & _ & Hc)]];
      try done.
    destruct (List.find _ _) as [d|]; rewrite Hc; simpl; [|done].
    intros _. unfold search_store.
    set (w1 := after (ensure_defaults (at_default c) (_id d) d) w).
    change (count_in_progress (notified (at_notify c) ?x)) with (count_in_progress x).
    change (waiting_docs (notified (at_notify c) ?x)) with (waiting_docs x).
    destruct (decide (count_in_progress w1 = 0%nat)); [apply promote_step_busy|done].
  - intros id stats. unfold result, after. rewrite complete_run.
    destruct (ObjectId_of_str id) as [oid|]; [|done].
    destruct (decide _); simpl; [done|]. intros _. unfold complete_store.
    change (count_in_progress (notified (at_notify c) ?x)) with (count_in_progress x).
    change (waiting_docs (notified (at_notify c) ?x)) with (waiting_docs x).
    apply promote_step_busy.
Qed.

End Busy.

(** ** What a completion returns *)

Lemma completed_today_count c w :
  completed_today (result (compute_stats c) w) =
  count (completed_in (day_start (at_today c)) None) (bookings w).
Proof. exact (proj1 (completed_today_split c w)). Qed.

Lemma completed_in_completed lo now d :
  completed_in lo None (set_fields (completed now) d) = Z.leb lo now.
Proof.
  unfold completed_in. rewrite !get_completed. rewrite decide_True by done.
  rewrite decide_False by done. rewrite decide_True by done.
  rewrite bool_decide_eq_true_2 by done. simpl. by rewrite andb_true_r.
Qed.

Lemma completed_in_status lo hi d :
  completed_in lo hi d = true -> status_is "completed" d.
Proof. unfold completed_in. rewrite andb_true_iff, bool_decide_eq_true. by intros [? _]. Qed.

Lemma count_completed_promote_step lo readings now w :
  unique_ids w ->
  count (completed_in lo None) (bookings (promote_step readings now w)) =
  count (completed_in lo None) (bookings w).
Proof.
  intros Hu. unfold promote_step.
  destruct (sorted_docs readings (waiting_docs w)) as [|o r] eqn:S; [done|].
  assert (Ho : In o (waiting_docs w)).
  { apply (sorted_docs_In readings). rewrite S. by left. }
  apply in_waiting_docs in Ho as [Ho Hw].
  rewrite bookings_after_update_one.
  destruct (update_first_matched [IdIs (_id o)] (promoted now) (bookings w)) as [H0|H0].
  { by rewrite update_first_unmatched_same. }
  destruct (count_update_first (completed_in lo None) _ _ _ H0) as (d & Hd & Hm & E).
  apply matches_id in Hm.
  assert (d = o) as -> by by apply (unique_by_id (bookings w)).
  assert (F1 : completed_in lo None o = false).
  { apply not_true_is_false. intros C. apply completed_in_status in C.
    unfold status_is in *. congruence. }
  assert (F2 : completed_in lo None (set_fields (promoted now) o) = false).
  { apply not_true_is_false. intros C. apply completed_in_status in C.
    unfold status_is in C. by rewrite get_promoted, decide_True in C. }
  rewrite F1, F2 in E. lia.
Qed.

Section Returned.
Variable ObjectId_of_str : string -> option ObjectId.

(** X6.  [complete] stamps [completed_at] with its first reading of the
    clock, and the statistics it returns take their day from a later
    reading.  In a store with unique identifiers, these statistics count
    one completed booking more than statistics with the same readings
    would have counted just before the call when the stamp is not before
    the midnight that begins their day, and the same number when that
    midnight fell between the stamp and the later reading. *)
Theorem complete_counts_one_more (c : Clock) (id : string) (w : World) (stats : Stats) :
  unique_ids w ->
  result (complete ObjectId_of_str c id) w = Ok stats ->
  completed_today stats =
  (completed_today (result (compute_stats c) w) +
   (if Z.leb (day_start (at_today c)) (at_complete c) then 1 else 0))%nat.
Proof.
  intros Hu. rewrite (completed_today_count c w).
  unfold result at 1. rewrite complete_run.
  destruct (ObjectId_of_str id) as [oid|]; [|done].
  destruct (decide _) as [|Hm]; cbn [fst]; [done|]. intros [= <-].
  rewrite completed_today_count. unfold complete_store.
  change (bookings (notified (at_notify c) ?x)) with (bookings x).
  rewrite count_completed_promote_step by by apply unique_ids_update_one.
  rewrite bookings_after_update_one.
  assert (H1 : (update_first (q_complete oid) (completed (at_complete c)) (bookings w)).1 = 1%nat).
  { destruct (update_first_matched (q_complete oid) (completed (at_complete c)) (bookings w));
      done. }
  destruct (count_update_first (completed_in (day_start (at_today c)) None) _ _ _ H1)
    as (d & Hd & Hq & E).
  apply matches_q_complete in Hq as [_ Hq].
  assert (F : completed_in (day_start (at_today c)) None d = false).
  { apply not_true_is_false. intros C. apply completed_in_status in C.
    unfold status_is in *. congruence. }
  rewrite F, completed_in_completed in E.
  destruct (Z.leb (day_start (at_today c)) (at_complete c)); lia.
Qed.

End Returned.

(** ** The queue *)

Section QueueFacts.
Context {A : Type} (key : A -> Z).

Lemma insert_sorted_strongly x l :
  StronglySorted (fun a b => key a <= key b) l ->
  StronglySorted (fun a b => key a <= key b) (insert_sorted key x l).
Proof.
  induction 1 as [|y r Hr IH Hy]; simpl.
  - repeat constructor.
  - destruct (Z.leb (key x) (key y)) eqn:E.
    + apply Z.leb_le in E. constructor; [by constructor|].
      constructor; [done|]. eapply Forall_impl; [exact Hy|]. simpl. intros; lia.
    + apply Z.leb_gt in E. constructor; [done|].
      rewrite (insert_sorted_perm key x r). constructor; [lia|done].
Qed.

Lemma sorted_strongly l : StronglySorted (fun a b => key a <= key b) (sorted key l).
Proof.
  induction l as [|x l IH]; simpl; [constructor|]. by apply insert_sorted_strongly.
Qed.

Lemma sorted_cons_min o l :
  (forall y, In y l -> key o <= key y) -> sorted key (o :: l) = o :: sorted key l.
Proof.
  intros H. simpl. destruct (sorted key l) as [|y r] eqn:S; [done|]. simpl.
  assert (Hy : In y l).
  { apply (Permutation_in y (sorted_perm key l)). rewrite S. by left. }
  apply H, Z.leb_le in Hy. by rewrite Hy.
Qed.

(** Taking the first element of least key out of a list takes the head
    off the sorted list. *)
Lemma sorted_remove_head m1 o m2 :
  (forall y, In y m1 -> key o < key y) -> (forall y, In y m2 -> key o <= key y) ->
  sorted key (m1 ++ o :: m2) = o :: sorted key (m1 ++ m2).
Proof.
  intros H1 H2. induction m1 as [|a m1 IH]; simpl.
  - by apply sorted_cons_min.
  - rewrite IH by (intros; apply H1; by right). simpl.
    assert (E : Z.leb (key a) (key o) = false).
    { apply Z.leb_gt, H1. by left. }
    by rewrite E.
Qed.

Lemma NoDup_split_unique (m1 m2 n1 n2 : list A) o :
  NoDup (m1 ++ o :: m2) -> m1 ++ o :: m2 = n1 ++ o :: n2 -> m1 = n1 /\ m2 = n2.
Proof.
  revert n1. induction m1 as [|a m1 IH]; intros [|b n1] Hnd E; simpl in *.
  - by injection E as ->.
  - injection E as <- ->. apply NoDup_cons in Hnd as [Hn _].
    destruct Hn. apply list_elem_of_In, in_elt.
  - injection E as -> <-. apply NoDup_cons in Hnd as [Hn _].
    destruct Hn. apply list_elem_of_In, in_elt.
  - injection E as -> E. apply NoDup_cons in Hnd as [_ Hnd].
    destruct (IH n1 Hnd E) as [-> ->]. done.
Qed.
End QueueFacts.

Lemma rows_entry (k : nat) l :
  map entry (imap (fun idx a => mkRow (idx + k) (entry_of a)) l) = map entry_of l.
Proof.
  revert k. induction l as [|x l IH]; intros k; simpl; [done|]. f_equal.
  rewrite <- (IH (S k)). f_equal. apply imap_ext. intros i y _. simpl. f_equal. lia.
Qed.

Lemma rows_sno (k : nat) l :
  map sno (imap (fun idx a => mkRow (idx + k) (entry_of a)) l) = seq k (length l).
Proof.
  revert k. induction l as [|x l IH]; intros k; simpl; [done|]. f_equal.
  rewrite <- (IH (S k)). f_equal. apply imap_ext. intros i y _. simpl. f_equal. lia.
Qed.

Lemma compute_stats_fields c w :
  waiting (result (compute_stats c) w) =
    imap (fun idx a => mkRow (idx + 1) (entry_of a))
         (sorted_docs (at_stats_key c) (waiting_docs w)) /\
  queue_length (result (compute_stats c) w) =
    length (sorted_docs (at_stats_key c) (waiting_docs w)) /\
  in_progress (result (compute_stats c) w) =
    entry_of <$> List.find (matches (q_status "in_progress")) (bookings w) /\
  latest_update_ts (result (compute_stats c) w) = latest_instant w.
Proof.
  split; [reflexivity|]. split; [reflexivity|]. split; [|reflexivity].
  change (in_progress (result (compute_stats c) w)) with
    (match List.find (matches (q_status "in_progress")) (bookings w) with
     | Some d => Some (entry_of d)
     | None => None
     end).
  by destruct (List.find _ _).
Qed.

(** X8.  The waiting list of the statistics shows every waiting booking
    exactly once, in the order of nondecreasing key, each key being the
    one the sort computed for the booking, and numbered 1, 2, ... up to
    the queue length; when the keys do not depend on the clock the list
    is in the order of that key.  The in-progress entry is the first
    booking in progress, if there is one, and the time stamp is the
    latest marker. *)
Theorem stats_list_the_queue (c : Clock) (w : World) :
  let st := result (compute_stats c) w in
  let pairs := sorted fst (keyed (at_stats_key c) 0 (waiting_docs w)) in
  let queue := sorted_docs (at_stats_key c) (waiting_docs w) in
  map entry (waiting st) = map entry_of queue /\
  map sno (waiting st) = seq 1 (queue_length st) /\
  Permutation queue (waiting_docs w) /\
  (queue = map snd pairs /\
   StronglySorted (fun p q => fst p <= fst q) pairs /\
   forall k d, In (k, d) pairs ->
     exists i : nat, waiting_docs w !! i = Some d /\
                     k = _sort_key_by_created_or_oid (at_stats_key c i) d) /\
  (forall key' : Doc -> Z,
     (forall (i : nat) d, waiting_docs w !! i = Some d ->
        _sort_key_by_created_or_oid (at_stats_key c i) d = key' d) ->
     StronglySorted (fun a b => key' a <= key' b) queue) /\
  in_progress st = entry_of <$> List.find (matches (q_status "in_progress")) (bookings w) /\
  latest_update_ts st = result get_latest_update_ts w.
Proof.
  intros st pairs queue. destruct (compute_stats_fields c w) as (Hw & Hq & Hp & Hl).
  fold st in Hw, Hq, Hp, Hl. fold queue in Hw, Hq.
  split; [by rewrite Hw, rows_entry|]. split; [by rewrite Hw, Hq, rows_sno|].
  split; [apply sorted_docs_perm|]. split; [|split; [|done]].
  - split; [done|]. split; [apply sorted_strongly|].
    intros k d Hin.
    apply (Permutation_in _ (sorted_perm fst _)) in Hin.
    by apply keyed_In in Hin.
  - intros key' Hk. unfold queue. rewrite (sorted_docs_uniform _ key') by done.
    apply sorted_strongly.
Qed.

Lemma entry_of_promoted now d : entry_of (set_fields (promoted now) d) = entry_of d.
Proof. unfold entry_of. rewrite !get_promoted. by rewrite !decide_False by done. Qed.

Lemma no_in_progress w d :
  count_in_progress w = 0%nat -> In d (bookings w) ->
  matches (q_status "in_progress") d = false.
Proof.
  unfold count_in_progress. intros H0 Hd. apply length_zero_iff_nil in H0.
  apply not_true_is_false. intros M.
  assert (In d (List.filter (matches (q_status "in_progress")) (bookings w)))
    by by apply List.filter_In.
  rewrite H0 in *. done.
Qed.

(** The promotion takes the head of the sorted waiting list out of the
    waiting bookings and, when the slot was free, puts it in the slot. *)
Lemma promote_step_split readings started w :
  unique_ids w ->
  match sorted_docs readings (waiting_docs w) with
  | [] => promote_step readings started w = w /\ waiting_docs w = []
  | o :: r =>
      exists m1 m2,
        waiting_docs w = m1 ++ o :: m2 /\
        waiting_docs (promote_step readings started w) = m1 ++ m2 /\
        (count_in_progress w = 0%nat ->
         List.find (matches (q_status "in_progress"))
                   (bookings (promote_step readings started w)) =
         Some (set_fields (promoted started) o))
  end.
Proof.
  intros Hu. unfold promote_step.
  destruct (sorted_docs readings (waiting_docs w)) as [|o r] eqn:S.
  { split; [done|]. by apply sorted_docs_nil in S. }
  assert (Ho : In o (waiting_docs w)).
  { apply (sorted_docs_In readings). rewrite S. by left. }
  apply in_waiting_docs in Ho as [Ho Hw].
  destruct (in_split _ _ Ho) as (l1 & l2 & El).
  assert (Hl1 : forall x, In x l1 -> matches [IdIs (_id o)] x = false).
  { intros x Hx. apply not_true_is_false. rewrite matches_id. intros E.
    assert (x = o) as ->.
    { apply (unique_by_id (bookings w)); [done| |done|done].
      rewrite El. apply in_or_app. by left. }
    unfold unique_ids in Hu. rewrite El, map_app in Hu. simpl in Hu.
    apply NoDup_app in Hu as (_ & Hu & _). apply (Hu (_id o)).
    - apply list_elem_of_In, in_map, Hx.
    - by left. }
  assert (Eb : bookings (after (update_one [IdIs (_id o)] (promoted started)) w) =
               l1 ++ set_fields (promoted started) o :: l2).
  { rewrite bookings_after_update_one, El, update_first_app_skip by done. simpl.
    assert (matches [IdIs (_id o)] o = true) as -> by by apply matches_id. done. }
  assert (Wo : matches (q_status "waiting") o = true) by by apply matches_status.
  assert (Wo' : matches (q_status "waiting") (set_fields (promoted started) o) = false).
  { apply not_true_is_false. rewrite matches_status. unfold status_is.
    by rewrite get_promoted, decide_True. }
  exists (List.filter (matches (q_status "waiting")) l1),
         (List.filter (matches (q_status "waiting")) l2).
  split; [|split].
  - unfold waiting_docs. rewrite El, List.filter_app. simpl. by rewrite Wo.
  - unfold waiting_docs. rewrite Eb, List.filter_app. simpl. by rewrite Wo'.
  - intros H0. rewrite Eb. rewrite find_app_skip.
    + simpl.
      assert (matches (q_status "in_progress") (set_fields (promoted started) o) = true)
        as ->; [|done].
      apply matches_status. unfold status_is. by rewrite get_promoted, decide_True.
    + intros x Hx. apply (no_in_progress w); [done|]. rewrite El. apply in_or_app. by left.
Qed.

Section Handover.
Variable ObjectId_of_str : string -> option ObjectId.

(** X7.  In a store with unique identifiers where at most one booking is
    in progress, a successful [complete] hands the slot to the head of
    the queue: the statistics it returns show as in progress the booking
    that was first in the sorted waiting list, and as waiting list the
    other bookings of that list, numbered from 1.  These are sorted
    anew by [compute_stats]; when the keys of the waiting bookings do
    not depend on the clock, they are the rest of that list in the same
    order. *)
Theorem complete_hands_over (c : Clock) (id : string) (w : World) (stats : Stats) :
  unique_ids w -> single_server w ->
  result (complete ObjectId_of_str c id) w = Ok stats ->
  let queue := sorted_docs (at_key c) (waiting_docs w) in
  in_progress stats = entry_of <$> head queue /\
  Permutation (map entry (waiting stats)) (map entry_of (tail queue)) /\
  map sno (waiting stats) = seq 1 (length (tail queue)) /\
  queue_length stats = length (tail queue) /\
  forall key' : Doc -> Z,
    (forall (i : nat) d, In d (waiting_docs w) ->
       _sort_key_by_created_or_oid (at_key c i) d = key' d /\
       _sort_key_by_created_or_oid (at_stats_key c i) d = key' d) ->
    queue = sorted key' (waiting_docs w) /\
    map entry (waiting stats) = map entry_of (tail queue).
Proof.
  intros Hu Hs Hr queue. unfold result in Hr. rewrite complete_run in Hr.
  destruct (ObjectId_of_str id) as [oid|]; [|done].
  destruct (decide _) as [|Hm]; cbn [fst] in Hr; [done|]. injection Hr as <-.
  destruct (compute_stats_fields c (complete_store c oid w)) as (Hw & Hq & Hp & _).
  set (w1 := after (update_one (q_complete oid) (completed (at_complete c))) w).
  assert (Hu1 : unique_ids w1) by by apply unique_ids_update_one.
  assert (H0 : count_in_progress w1 = 0%nat).
  { pose proof (count_after_completion (at_complete c) oid w Hm) as C. fold w1 in C.
    unfold single_server in Hs. lia. }
  assert (Ew : waiting_docs w1 = waiting_docs w).
  { unfold w1. by rewrite waiting_docs_after_completion. }
  pose proof (promote_step_split (at_key c) (at_complete c) w1 Hu1) as P.
  rewrite Ew in P. fold queue in P.
  change (waiting_docs (complete_store c oid w))
    with (waiting_docs (promote_step (at_key c) (at_complete c) w1)) in Hw, Hq.
  change (bookings (complete_store c oid w))
    with (bookings (promote_step (at_key c) (at_complete c) w1)) in Hp.
  set (after_queue := sorted_docs (at_stats_key c)
         (waiting_docs (promote_step (at_key c) (at_complete c) w1))) in *.
  assert (Hrows : map entry (waiting (result (compute_stats c) (complete_store c oid w))) =
                  map entry_of after_queue) by by rewrite Hw, rows_entry.
  assert (Hsno : map sno (waiting (result (compute_stats c) (complete_store c oid w))) =
                 seq 1 (length after_queue)) by by rewrite Hw, rows_sno.
  clear Hw. generalize dependent (result (compute_stats c) (complete_store c oid w)).
  intros st Hq Hp Hrows Hsno.
  assert (Eq : forall key' : Doc -> Z,
     (forall (i : nat) d, In d (waiting_docs w) ->
       _sort_key_by_created_or_oid (at_key c i) d = key' d /\
       _sort_key_by_created_or_oid (at_stats_key c i) d = key' d) ->
     queue = sorted key' (waiting_docs w)).
  { intros key' Hk. unfold queue. apply sorted_docs_uniform. intros j x Hj.
    by apply Hk, (lookup_In _ j). }
  destruct queue as [|o r] eqn:Q.
  - destruct P as [P1 P2].
    assert (Ea : after_queue = []).
    { unfold after_queue. by rewrite P1, Ew, P2. }
    rewrite Ea in Hrows, Hsno, Hq. rewrite P1 in Hp.
    assert (F : List.find (matches (q_status "in_progress")) (bookings w1) = None).
    { apply find_none_iff. intros d Hd. by apply (no_in_progress w1). }
    rewrite F in Hp. cbn [head tail length].
    split; [done|]. split; [by rewrite Hrows|]. split; [done|]. split; [done|].
    intros key' Hk. split; [by apply Eq|done].
  - destruct P as (m1 & m2 & E1 & E2 & F). specialize (F H0).
    assert (Pq : Permutation after_queue r).
    { unfold after_queue. rewrite sorted_docs_perm, E2.
      apply (Permutation_cons_inv (a := o)).
      rewrite <- Q. unfold queue. rewrite sorted_docs_perm, E1.
      apply Permutation_middle. }
    cbn [head tail]. split. { by rewrite Hp, F; cbn; rewrite entry_of_promoted. }
    split. { rewrite Hrows. by apply Permutation_map. }
    split. { rewrite Hsno. by rewrite (Permutation_length Pq). }
    split. { rewrite Hq. by rewrite (Permutation_length Pq). }
    intros key' Hk. split; [by apply Eq|].
    rewrite Hrows. f_equal.
    assert (S : sorted key' (waiting_docs w) = o :: r) by by rewrite <- (Eq key' Hk).
    destruct (sorted_head _ _ _ _ S) as (n1 & n2 & En & Hn1 & Hn2).
    assert (Hnd : NoDup (waiting_docs w)) by by apply NoDup_waiting_docs.
    rewrite En in Hnd, E1.
    destruct (NoDup_split_unique _ _ _ _ _ Hnd E1) as [-> ->].
    rewrite En, (sorted_remove_head key') in S by done. injection S as <-.
    unfold after_queue. rewrite E2. apply sorted_docs_uniform.
    intros j x Hj. apply Hk. rewrite En. apply lookup_In in Hj.
    apply in_app_or in Hj as [Hj|Hj]; apply in_or_app; [by left|right; by right].
Qed.

End Handover.

(** ** The event stream *)

Lemma latest_instant_updates w :
  latest_instant w =
  match updates w with
  | [] => 0
  | t :: r => fold_left Z.max r t
  end.
Proof.
  unfold latest_instant, result, get_latest_update_ts. rewrite run_bind.
  unfold result, find_latest_update; simpl. by destruct (updates w).
Qed.

Lemma latest_instant_appended w0 w1 now :
  updates w1 = updates w0 ++ [now] ->
  (latest_instant w0 < latest_instant w1 <-> latest_instant w0 < now) /\
  (latest_instant w0 < now -> latest_instant w1 = now).
Proof.
  intros E. rewrite !latest_instant_updates, E.
  destruct (updates w0) as [|t r]; simpl; [done|].
  rewrite fold_left_app; simpl. lia.
Qed.

Section StreamFacts.
Variable tz_aware : bool.

Lemma get_latest_update_datetime_run w :
  get_latest_update_datetime tz_aware w = (latest_datetime tz_aware w, w).
Proof.
  unfold get_latest_update_datetime. rewrite run_bind.
  unfold latest_datetime. rewrite latest_instant_updates.
  unfold result, after, find_latest_update; simpl. by destruct (updates w).
Qed.

Lemma result_get_latest_update_datetime w :
  result (get_latest_update_datetime tz_aware) w = latest_datetime tz_aware w.
Proof. unfold result. by rewrite get_latest_update_datetime_run. Qed.

Lemma after_get_latest_update_datetime w :
  after (get_latest_update_datetime tz_aware) w = w.
Proof. unfold after. by rewrite get_latest_update_datetime_run. Qed.

Lemma stream_start_run c w :
  stream_start tz_aware c w = ((latest_datetime tz_aware w, result (compute_stats c) w), w).
Proof.
  unfold stream_start.
  rewrite run_bind, result_get_latest_update_datetime, after_get_latest_update_datetime.
  rewrite run_bind, compute_stats_after. reflexivity.
Qed.

Lemma stream_poll_run c last_ts w :
  stream_poll tz_aware c last_ts w =
  (match datetime_gt (latest_datetime tz_aware w) last_ts with
   | None => None
   | Some true => Some (latest_datetime tz_aware w, Some (result (compute_stats c) w))
   | Some false => Some (last_ts, None)
   end, w).
Proof.
  unfold stream_poll.
  rewrite run_bind, result_get_latest_update_datetime, after_get_latest_update_datetime.
  destruct (datetime_gt (latest_datetime tz_aware w) last_ts) as [[|]|]; reflexivity.
Qed.

Lemma datetime_gt_same d : datetime_gt d d = Some false.
Proof. unfold datetime_gt. rewrite eqb_reflx. f_equal. apply Z.ltb_irrefl. Qed.

(** X11.  The stream sends a change once.  Right after its start, and
    right after any turn of its loop that did not raise, a further turn
    on the unchanged store sends nothing, keeps [last_ts] and does not
    raise; and no turn writes to the store. *)
Theorem stream_sends_once (c0 c1 c2 : Clock) (last_ts : datetime) (w : World) :
  after (stream_start tz_aware c0) w = w /\
  after (stream_poll tz_aware c1 last_ts) w = w /\
  (let started := (result (stream_start tz_aware c0) w).1 in
   result (stream_poll tz_aware c1 started) w = Some (started, None)) /\
  (forall last_ts' sent,
     result (stream_poll tz_aware c1 last_ts) w = Some (last_ts', sent) ->
     result (stream_poll tz_aware c2 last_ts') w = Some (last_ts', None)).
Proof.
  unfold after, result. rewrite stream_start_run, !stream_poll_run. cbn [fst snd].
  split; [done|]. split; [done|]. split.
  { by rewrite datetime_gt_same. }
  intros last_ts' sent. rewrite stream_poll_run. cbn [fst].
  destruct (datetime_gt (latest_datetime tz_aware w) last_ts) as [[|]|] eqn:G; try done.
  - intros [= <- <-]. by rewrite datetime_gt_same.
  - intros [= <- <-]. by rewrite G.
Qed.

Lemma stream_poll_after_marker c1 w0 w1 now :
  tz_aware = true \/ updates w0 ≠ [] ->
  updates w1 = updates w0 ++ [now] ->
  result (stream_poll tz_aware c1 (latest_datetime tz_aware w0)) w1 =
  if Z.ltb (latest_instant w0) now
  then Some (mkDatetime now tz_aware, Some (result (compute_stats c1) w1))
  else Some (latest_datetime tz_aware w0, None).
Proof.
  intros Hk E. unfold result. rewrite stream_poll_run. cbn [fst].
  destruct (latest_instant_appended w0 w1 now E) as [L1 L2].
  assert (K : aware (latest_datetime tz_aware w1) = aware (latest_datetime tz_aware w0)).
  { unfold latest_datetime; simpl. rewrite E.
    destruct (updates w0) as [|t r]; simpl; [|done].
    destruct Hk as [->|Hk]; done. }
  assert (K1 : aware (latest_datetime tz_aware w1) = tz_aware).
  { unfold latest_datetime; simpl. rewrite E. by destruct (updates w0). }
  unfold datetime_gt. rewrite K, eqb_reflx.
  change (instant (latest_datetime tz_aware w1)) with (latest_instant w1).
  change (instant (latest_datetime tz_aware w0)) with (latest_instant w0).
  destruct (Z.ltb_spec (latest_instant w0) now) as [Hlt|Hge].
  - assert ((latest_instant w0 <? latest_instant w1) = true) as -> by (apply Z.ltb_lt; tauto).
    f_equal. f_equal. unfold latest_datetime at 1.
    rewrite (L2 Hlt). f_equal. exact K1.
  - assert ((latest_instant w0 <? latest_instant w1) = false) as ->; [|done].
    apply Z.ltb_ge. destruct (Z.le_gt_cases (latest_instant w1) (latest_instant w0)); [done|].
    apply L1 in H. lia.
Qed.

Lemma stream_poll_raises c1 w0 w1 now :
  tz_aware = false -> updates w0 = [] ->
  updates w1 = updates w0 ++ [now] ->
  result (stream_poll tz_aware c1 (latest_datetime tz_aware w0)) w1 = None.
Proof.
  intros Htz E0 E. unfold result. rewrite stream_poll_run. cbn [fst].
  unfold datetime_gt, latest_datetime; simpl. rewrite E, E0, Htz. done.
Qed.

End StreamFacts.

Section StreamAndHandlers.
Variable ObjectId_of_str : string -> option ObjectId.
Variable tz_aware : bool.

(** X12.  For a stream whose [last_ts] is of the same kind as the dates
    of the store (the client is [tz_aware], or a marker existed when the
    stream started): the first turn after a successful [search] or
    [complete] sends the statistics of the new store exactly when the
    time that call stamped on its marker is later than every marker the
    stream had seen.  A call whose marker is stamped at or before the
    latest marker seen is not sent. *)
Theorem stream_sees_later_markers (c0 c c1 : Clock) (w : World) :
  tz_aware = true \/ updates w ≠ [] ->
  let started := (result (stream_start tz_aware c0) w).1 in
  (forall data i,
     result (search c data) w = Ok i ->
     let w1 := after (search c data) w in
     result (stream_poll tz_aware c1 started) w1 =
     if Z.ltb (result get_latest_update_ts w) (at_notify c)
     then Some (mkDatetime (at_notify c) tz_aware, Some (result (compute_stats c1) w1))
     else Some (started, None)) /\
  (forall id stats,
     result (complete ObjectId_of_str c id) w = Ok stats ->
     let w1 := after (complete ObjectId_of_str c id) w in
     result (stream_poll tz_aware c1 started) w1 =
     if Z.ltb (result get_latest_update_ts w) (at_notify c)
     then Some (mkDatetime (at_notify c) tz_aware, Some (result (compute_stats c1) w1))
     else Some (started, None)).
Proof.
  intros Hk started.
  assert (Es : started = latest_datetime tz_aware w).
  { unfold started, result. by rewrite stream_start_run. }
  rewrite Es. fold (latest_instant w). split.
  - intros data i Hr w1. apply stream_poll_after_marker; [done|].
    unfold w1. rewrite (proj1 (marker_iff_success_aux ObjectId_of_str c w)). by rewrite Hr.
  - intros id stats Hr w1. apply stream_poll_after_marker; [done|].
    unfold w1. rewrite (proj2 (marker_iff_success_aux ObjectId_of_str c w)). by rewrite Hr.
Qed.

(** X13.  With the driver's default, dates without time zone, a stream
    that starts on a store without markers holds the epoch with its time
    zone as [last_ts]: its turns send nothing while there is no marker,
    and the first turn after a successful [search] or [complete] raises
    on the comparison, which ends the stream. *)
Theorem stream_from_epoch_raises (c0 c c1 : Clock) (w : World) :
  tz_aware = false -> updates w = [] ->
  let started := (result (stream_start tz_aware c0) w).1 in
  started = mkDatetime 0 true /\
  result (stream_poll tz_aware c1 started) w = Some (started, None) /\
  (forall data i,
     result (search c data) w = Ok i ->
     result (stream_poll tz_aware c1 started) (after (search c data) w) = None) /\
  (forall id stats,
     result (complete ObjectId_of_str c id) w = Ok stats ->
     result (stream_poll tz_aware c1 started)
       (after (complete ObjectId_of_str c id) w) = None).
Proof.
  intros Htz E0 started.
  assert (Es : started = latest_datetime tz_aware w).
  { unfold started, result. by rewrite stream_start_run. }
  split.
  { rewrite Es. unfold latest_datetime. rewrite latest_instant_updates, E0. done. }
  split.
  { unfold result at 1. rewrite stream_poll_run. cbn [fst]. rewrite Es.
    by rewrite datetime_gt_same. }
  rewrite Es. split.
  - intros data i Hr. apply (stream_poll_raises tz_aware c1 w _ (at_notify c)); [done|done|].
    rewrite (proj1 (marker_iff_success_aux ObjectId_of_str c w)). by rewrite Hr.
  - intros id stats Hr. apply (stream_poll_raises tz_aware c1 w _ (at_notify c)); [done|done|].
    rewrite (proj2 (marker_iff_success_aux ObjectId_of_str c w)). by rewrite Hr.
Qed.

End StreamAndHandlers.

(** ** Searching again *)

Lemma find_Forall2 (p : Doc -> bool) (R : Doc -> Doc -> Prop) l l' d :
  (forall a b, R a b -> p b = p a) ->
  Forall2 R l l' -> List.find p l = Some d ->
  exists d', List.find p l' = Some d' /\ R d d'.
Proof.
  intros Hp H. induction H as [|a b l l' Hab H IH]; simpl; [done|].
  rewrite (Hp a b Hab). destruct (p a); [|done].
  intros [= <-]. by exists b.
Qed.

Lemma lookup_id_promote_step_defaults readings now w i d :
  lookup_id i w = Some d ->
  is_Some (get "status" d) -> is_Some (get "created_at" d) ->
  exists x, lookup_id i (promote_step readings now w) = Some x /\
            is_Some (get "status" x) /\ is_Some (get "created_at" x).
Proof.
  intros L Hs Hc. unfold promote_step. destruct (sorted_docs _ _) as [|o r]; [by exists d|].
  destruct (decide (i = _id o)) as [->|Hne].
  - exists (set_fields (promoted now) d). split; [by apply lookup_id_update_same|].
    rewrite !get_promoted. rewrite decide_True by done. rewrite !decide_False by done.
    split; [by eexists|done].
  - exists d. by rewrite lookup_id_update_other.
Qed.

Lemma search_store_idle c d w :
  is_Some (get "status" d) -> is_Some (get "created_at" d) ->
  (count_in_progress w = 0%nat -> waiting_docs w = []) ->
  bookings (search_store c d w) = bookings w.
Proof.
  intros Hs Hc Hidle. unfold search_store.
  assert (E : after (ensure_defaults (at_default c) (_id d) d) w = w).
  { unfold after. by rewrite ensure_defaults_complete. }
  rewrite E. simpl. destruct (decide _) as [H0|]; [|done].
  unfold promote_step. by rewrite (Hidle H0).
Qed.

(** X15.  In a store with unique identifiers, a [search] that succeeded,
    sent again, succeeds again with the same identifier and changes no
    booking: the backfill and the promotion have nothing left to do.  It
    still writes its marker. *)
Theorem search_again_changes_nothing
    (c c2 : Clock) (data : option (gmap string Value)) (i : Value) (w : World) :
  unique_ids w ->
  result (search c data) w = Ok i ->
  let w1 := after (search c data) w in
  result (search c2 data) w1 = Ok i /\
  bookings (after (search c2 data) w1) = bookings w1 /\
  updates (after (search c2 data) w1) = updates w ++ [at_notify c; at_notify c2].
Proof.
  intros Hu Hr w1. unfold result in Hr.
  destruct (search_cases c data w) as [[msg Hc]|[Hc|(obj & raw & -> & Hobj & R & Hne & Hc)]];
    try (rewrite Hc in Hr; done).
  destruct (List.find _ _) as [d|] eqn:F; rewrite Hc in Hr; simpl in Hr; [|done].
  injection Hr as <-.
  assert (Ew1 : w1 = search_store c d w) by (unfold w1, after; by rewrite Hc).
  clearbody w1. subst w1.
  set (w' := search_store c d w).
  assert (Hd : In d (bookings w)) by by apply List.find_some in F as [? _].
  assert (Hu' : unique_ids w') by (unfold unique_ids, w'; by rewrite ids_search_store).
  pose proof (search_store_moves c d w Hu Hd) as Hmoves.
  assert (Hp : forall a b, doc_moves a b ->
                 matches (q_booking (str_upper (str_strip raw))) b =
                 matches (q_booking (str_upper (str_strip raw))) a).
  { intros a b (_ & _ & _ & K). apply eq_true_iff_eq.
    rewrite !matches_q_booking. by rewrite K. }
  destruct (find_Forall2 _ _ _ _ d Hp Hmoves F) as (d' & F' & Hmv).
  fold w' in F'. destruct Hmv as (Hid & _).
  assert (Hd' : In d' (bookings w')) by by apply List.find_some in F' as [? _].
  assert (Hdef : is_Some (get "status" d') /\ is_Some (get "created_at" d')).
  { assert (L1 : lookup_id (_id d) (after (ensure_defaults (at_default c) (_id d) d) w) =
                 Some (set_fields (backfill (at_default c) d) d)).
    { rewrite after_ensure_defaults. apply lookup_id_update_same. by apply lookup_id_unique. }
    assert (D1 : is_Some (get "status" (set_fields (backfill (at_default c) d) d)) /\
                 is_Some (get "created_at" (set_fields (backfill (at_default c) d) d))).
    { rewrite !get_backfilled. rewrite decide_True by done. rewrite decide_False by done.
      rewrite decide_True by done. split; by eexists. }
    assert (exists x, lookup_id (_id d) w' = Some x /\
                      is_Some (get "status" x) /\ is_Some (get "created_at" x))
      as (x & Lx & Dx).
    { unfold w', search_store.
      change (lookup_id (_id d) (notified (at_notify c) ?y)) with (lookup_id (_id d) y).
      destruct D1 as [D1 D2]. destruct (decide _).
      - exact (lookup_id_promote_step_defaults (at_key c) (at_start c) _ _ _ L1 D1 D2).
      - exists (set_fields (backfill (at_default c) d) d). done. }
    rewrite <- Hid in Lx. rewrite (lookup_id_unique w' d' Hu' Hd') in Lx.
    by injection Lx as ->. }
  destruct Hdef as [Hs' Hc'].
  assert (Hidle : count_in_progress w' = 0%nat -> waiting_docs w' = []).
  { unfold w', search_store.
    change (count_in_progress (notified (at_notify c) ?x)) with (count_in_progress x).
    change (waiting_docs (notified (at_notify c) ?x)) with (waiting_docs x).
    destruct (decide _); [apply promote_step_busy|done]. }
  unfold result, after. rewrite (search_found c2 obj raw d' w') by done. cbn [fst snd].
  split; [by rewrite Hid|]. split.
  - by apply search_store_idle.
  - unfold search_store at 1.
    assert (E : after (ensure_defaults (at_default c2) (_id d') d') w' = w').
    { unfold after. by rewrite ensure_defaults_complete. }
    rewrite E.
    assert (Ew : updates w' = updates w ++ [at_notify c]).
    { pose proof (proj1 (marker_iff_success_aux (fun _ => None) c w) (Some obj)) as M.
      unfold after, result in M. rewrite Hc in M. exact M. }
    cbn [updates notified].
    assert (Ep : updates (if decide (count_in_progress w' = 0%nat)
                          then promote_step (at_key c2) (at_start c2) w' else w') = updates w').
    { destruct (decide _) as [H0|]; [|done]. unfold promote_step. by rewrite (Hidle H0). }
    rewrite Ep, Ew, <- app_assoc. done.
Qed.

(** X16.  When the booking found has a status and a [created_at] and
    some booking is in progress, [search] changes no booking at all, and
    yet it writes a marker. *)
Theorem search_only_notifies
    (c : Clock) (obj : gmap string Value) (raw : string) (d : Doc) (w : World) :
  obj ≠ ∅ -> supplied_code obj = Some raw -> str_upper (str_strip raw) ≠ "" ->
  List.find (matches (q_booking (str_upper (str_strip raw)))) (bookings w) = Some d ->
  is_Some (get "status" d) -> is_Some (get "created_at" d) ->
  count_in_progress w ≠ 0%nat ->
  search c (Some obj) w = (Ok (_id d), mkWorld (bookings w) (updates w ++ [at_notify c])).
Proof.
  intros Hobj Hraw Hne F Hs Hc Hbusy.
  assert (R : default (VStr "") (obj !! "booking_id") = VStr raw).
  { unfold supplied_code in Hraw.
    destruct (default (VStr "") (obj !! "booking_id")); try done. congruence. }
  rewrite (search_found c obj raw d w) by done. f_equal.
  unfold search_store.
  assert (E : after (ensure_defaults (at_default c) (_id d) d) w = w).
  { unfold after. by rewrite ensure_defaults_complete. }
  rewrite E. by rewrite decide_False.
Qed.

(** ** The stamp of a completion *)

Lemma stamp_moves_search r now started d d1 d2 :
  backfilled now d d1 -> promoted_from started d1 d2 -> stamp_moves r d d2.
Proof.
  intros B P. left.
  assert (B1 : get "completed_at" d1 = get "completed_at" d /\
               (status_is "completed" d1 -> status_is "completed" d)).
  { destruct B as [->| ->]; [done|]. unfold status_is. rewrite !get_backfilled.
    repeat case_decide; try done. split; [done|].
    destruct (get "status" d); simpl; [done|]. intros [=]. }
  destruct P as [->|[Hw ->]]; [done|]. unfold status_is. rewrite !get_promoted.
  repeat case_decide; try done. split; [tauto|]. intros [=].
Qed.

Lemma stamp_moves_complete c id d d1 d2 :
  completed_from (at_complete c) d d1 -> promoted_from (at_complete c) d1 d2 ->
  stamp_moves (ReqComplete c id) d d2.
Proof.
  intros [->|[Hp ->]] [->|[Hw ->]].
  - by left.
  - left. unfold status_is. rewrite !get_promoted. by repeat case_decide.
  - right. exists (at_complete c). split; [done|]. split; [done|].
    unfold status_is. rewrite !get_completed. by repeat case_decide.
  - unfold status_is in Hw. rewrite get_completed in Hw. by case_decide.
Qed.

Lemma stamp_moves_refl r d : stamp_moves r d d.
Proof. by left. Qed.

Section Stamps.
Variable ObjectId_of_str : string -> option ObjectId.

Lemma handle_stamps w r :
  unique_ids w -> Forall2 (stamp_moves r) (bookings w) (bookings (handle ObjectId_of_str w r)).
Proof.
  intros Hu. destruct r as [c data|c id|c]; simpl.
  - unfold after.
    destruct (search_cases c data w) as [[msg ->]|[->|(obj & raw & _ & _ & _ & _ & Hc)]];
      try (apply Forall2_same, stamp_moves_refl).
    destruct (List.find _ _) as [d|] eqn:F; rewrite Hc; simpl;
      [|apply Forall2_same, stamp_moves_refl].
    assert (Hd : In d (bookings w)) by by apply List.find_some in F as [? _].
    unfold search_store. simpl.
    pose proof (backfill_Forall2 (at_default c) d w Hu Hd) as HB.
    set (w1 := after (ensure_defaults (at_default c) (_id d) d) w) in *.
    assert (Hu1 : unique_ids w1) by by apply unique_ids_ensure_defaults.
    destruct (decide (count_in_progress w1 = 0%nat)).
    + eapply Forall2_impl;
        [exact (Forall2_compose _ _ _ _ _ HB
                  (promote_step_Forall2 (at_key c) (at_start c) w1 Hu1))|].
      intros a z (b & H1 & H2).
      by apply (stamp_moves_search _ (at_default c) (at_start c) a b z).
    + eapply Forall2_impl; [exact HB|].
      intros a b H1.
      apply (stamp_moves_search _ (at_default c) (at_start c) a b b); [done|by left].
  - unfold after. rewrite complete_run.
    destruct (ObjectId_of_str id) as [oid|]; [|apply Forall2_same, stamp_moves_refl].
    destruct (decide _); simpl; [apply Forall2_same, stamp_moves_refl|].
    unfold complete_store. simpl.
    pose proof (completion_Forall2 (at_complete c) oid w) as HC.
    set (w1 := after (update_one (q_complete oid) (completed (at_complete c))) w) in *.
    assert (Hu1 : unique_ids w1) by by apply unique_ids_update_one.
    eapply Forall2_impl;
      [exact (Forall2_compose _ _ _ _ _ HC
                (promote_step_Forall2 (at_key c) (at_complete c) w1 Hu1))|].
    intros a z (b & H1 & H2). by apply (stamp_moves_complete c id a b z).
  - rewrite compute_stats_after. apply Forall2_same, stamp_moves_refl.
Qed.

Lemma completions_by_handle bound w r :
  unique_ids w -> completions_by bound w ->
  (forall t, completion_time r = Some t -> t <= bound) ->
  completions_by bound (handle ObjectId_of_str w r).
Proof.
  intros Hu Hb Hr d' t Hd' Hs E.
  apply list_elem_of_In, list_elem_of_lookup in Hd' as [n Hn'].
  pose proof (handle_stamps w r Hu) as F.
  destruct (Forall2_lookup_r _ _ _ _ _ F Hn') as (d & Hn & [[Ec Hc]|(t' & Ht & _ & _ & Et)]).
  - apply (Hb d t); [|by apply Hc|by rewrite <- Ec].
    apply list_elem_of_In, list_elem_of_lookup. by exists n.
  - rewrite E in Et. injection Et as ->. by apply Hr.
Qed.

(** X17.  Only [complete] writes [completed_at], and it writes the
    reading of the clock it took at its start: in a store with unique
    identifiers, one request leaves the [completed_at] of a booking as it
    was, and completes no booking, unless it is a [complete] that moves a
    booking in progress to completed and stamps it with that reading.
    Hence, along any sequence of requests, no completed booking is
    stamped later than a bound that held in the store at the start and
    holds of the readings of the [complete] requests. *)
Theorem completion_stamps_the_clock (rs : list Request) (w : World) :
  unique_ids w ->
  (forall r, Forall2 (stamp_moves r) (bookings w) (bookings (handle ObjectId_of_str w r))) /\
  (forall bound,
     completions_by bound w ->
     Forall (fun r => forall t, completion_time r = Some t -> t <= bound) rs ->
     completions_by bound (serve ObjectId_of_str rs w)).
Proof.
  intros Hu. split; [intros r; by apply handle_stamps|].
  intros bound Hb Hrs. unfold serve. revert w Hu Hb.
  induction Hrs as [|r rs Hr Hrs IH]; intros w Hu Hb; simpl; [done|].
  apply IH.
  - unfold unique_ids. by rewrite ids_handle.
  - by apply completions_by_handle.
Qed.

End Stamps.

End Handlers.

(** * The handlers on concrete requests *)

#[local] Existing Instance ascii_methods.

Example normalise_code :
  str_upper (str_strip "  ab-12 c ") = "AB-12 C" /\ str_upper (str_strip "   ") = "".
Proof. by vm_compute. Qed.

Example ObjectId_of_hex_id1 :
  ObjectId_of_hex id1 = Some (2 ^ 64 + 1) /\ ObjectId_of_hex "12345" = None /\
  generation_time (2 ^ 64 + 1) = 1000.
Proof. by vm_compute. Qed.

Example search_then_complete :
  let w1 := after (search (ticking 5000) (Some {[ "booking_id" := VStr " b3 " ]})) three_waiting in
  let w2 := after (complete ObjectId_of_hex (ticking 6000) id1) w1 in
  (lookup_id (VOid (2 ^ 64 + 1)) w1 ≫= get "status") = Some (VStr "in_progress") /\
  (lookup_id (VOid (2 ^ 64 + 1)) w1 ≫= get "started_at") = Some (VDate 5100) /\
  (lookup_id (VOid (2 ^ 64 + 1)) w2 ≫= get "status") = Some (VStr "completed") /\
  (lookup_id (VOid (2 ^ 64 + 1)) w2 ≫= get "completed_at") = Some (VDate 6000) /\
  (lookup_id (VOid (2 * 2 ^ 64 + 2)) w2 ≫= get "status") = Some (VStr "in_progress") /\
  (lookup_id (VOid (2 * 2 ^ 64 + 2)) w2 ≫= get "started_at") = Some (VDate 6000) /\
  (lookup_id (VOid (3 * 2 ^ 64 + 3)) w2 ≫= get "status") = Some (VStr "waiting") /\
  updates w2 = [5101; 6101] /\
  completed_today (result (compute_stats (ticking 7000)) w2) = 1%nat.
Proof. by vm_compute. Qed.

(** The clock moves between the backfill and the sort: the booking that
    was looked up gets the earlier reading as [created_at], the booking
    whose key cannot be computed gets a later one as key, and so the
    booking that was looked up is the one promoted.  On a clock that
    stood still the two keys would be equal and the first booking of the
    collection would be promoted. *)
Example search_on_legacy :
  let w1 := after (search (ticking 5000) (Some {[ "booking_id" := VStr "l1" ]})) legacy in
  let w2 := after (search (steady 5000) (Some {[ "booking_id" := VStr "l1" ]})) legacy in
  (lookup_id (_id legacy_l) w1 ≫= get "created_at") = Some (VDate 5000) /\
  (lookup_id (_id legacy_l) w1 ≫= get "status") = Some (VStr "in_progress") /\
  (lookup_id (_id legacy_g) w1 ≫= get "status") = Some (VStr "waiting") /\
  (lookup_id (_id legacy_l) w2 ≫= get "status") = Some (VStr "waiting") /\
  (lookup_id (_id legacy_g) w2 ≫= get "status") = Some (VStr "in_progress").
Proof. by vm_compute. Qed.

Ltac by_decide := apply (bool_decide_unpack _); vm_compute; exact I.

Ltac by_bookings :=
  let d := fresh "d" in let t := fresh "t" in
  let Hd := fresh "Hd" in let Hs := fresh "Hs" in let E := fresh "E" in
  unfold completions_by; intros d t Hd Hs E; simpl in Hd;
  repeat (destruct Hd as [<-|Hd];
          [vm_compute in Hs, E;
           first [discriminate Hs | discriminate E | (injection E as <-; vm_compute; discriminate)]|]);
  destruct Hd.

Lemma single_server_invariant_witness :
  single_server three_waiting /\
  single_server
    (serve ObjectId_of_hex
       [ReqSearch (ticking 5000) (Some {[ "booking_id" := VStr "b3" ]});
        ReqComplete (ticking 6000) id1; ReqStats (ticking 7000)]
       three_waiting).
Proof.
  assert (H : single_server three_waiting) by (vm_compute; lia).
  split; [exact H|].
  apply (single_server_invariant ObjectId_of_hex three_waiting H).
Defined.

Lemma search_status_of_looked_up_witness :
  unique_ids legacy /\
  let d1 := result (ensure_defaults 5000 (_id legacy_l) legacy_l) legacy in
  lookup_id (_id legacy_l)
    (after (search (ticking 5000) (Some {[ "booking_id" := VStr "l1" ]})) legacy) =
  Some (set_fields (promoted 5100) d1) /\
  status_is "in_progress" (set_fields (promoted 5100) d1).
Proof.
  assert (Hu : unique_ids legacy) by (unfold unique_ids; by_decide).
  split; [exact Hu|].
  refine (proj2 (proj2 (proj2 (proj2 (proj2
            (search_status_of_looked_up (ticking 5000) {[ "booking_id" := VStr "l1" ]} "l1"
               legacy_l legacy Hu _ _ _ _))))) _ _).
  - by_decide.
  - reflexivity.
  - by_decide.
  - vm_compute; reflexivity.
  - vm_compute; reflexivity.
  - vm_compute; reflexivity.
Defined.

Lemma complete_iff_in_progress_witness :
  unique_ids one_in_service /\
  ObjectId_of_hex id1 = Some (2 ^ 64 + 1) /\
  forall c2,
    result (complete ObjectId_of_hex c2 id1)
      (after (complete ObjectId_of_hex (ticking 6000) id1) one_in_service) =
    Error 404 "No in-progress appointment with that ID".
Proof.
  assert (Hu : unique_ids one_in_service) by (unfold unique_ids; by_decide).
  assert (Hid : ObjectId_of_hex id1 = Some (2 ^ 64 + 1)) by (vm_compute; reflexivity).
  split; [exact Hu|]. split; [exact Hid|].
  exact (proj2 (proj2 (proj2
    (complete_iff_in_progress ObjectId_of_hex (ticking 6000) id1 (2 ^ 64 + 1)
       one_in_service Hu Hid)))).
Defined.

Lemma fifo_promotion_witness :
  unique_ids legacy /\
  promoted_earliest (at_key (ticking 5000)) 5100
    (after (ensure_defaults 5000 (_id legacy_l) legacy_l) legacy)
    (after (search (ticking 5000) (Some {[ "booking_id" := VStr "l1" ]})) legacy).
Proof.
  assert (Hu : unique_ids legacy) by (unfold unique_ids; by_decide).
  split; [exact Hu|].
  refine (proj2 (proj1 (proj2 (fifo_promotion ObjectId_of_hex (ticking 5000) legacy Hu))
            {[ "booking_id" := VStr "l1" ]} "l1" legacy_l _ _ _ _ _)).
  - by_decide.
  - reflexivity.
  - by_decide.
  - vm_compute; reflexivity.
  - vm_compute; reflexivity.
Defined.

Lemma search_failures_witness :
  (exists msg, search (ticking 5000) (Some {[ "booking_id" := VStr "   " ]}) three_waiting =
               (Error 400 msg, three_waiting)) /\
  search (ticking 5000) (Some {[ "booking_id" := VStr "unknown" ]}) (mkWorld [] []) =
  (Error 404 "Not found", mkWorld [] []).
Proof.
  split.
  - refine (proj1 (proj2 (search_failures (ticking 5000) three_waiting)
                     {[ "booking_id" := VStr "   " ]} "   " _) _); reflexivity.
  - refine (proj2 (proj2 (search_failures (ticking 5000) (mkWorld [] []))
                     {[ "booking_id" := VStr "unknown" ]} "unknown" _) _ _).
    + reflexivity.
    + by_decide.
    + intros d [].
Defined.

Lemma completed_today_within_day_witness :
  completions_by 7200 one_completed /\
  completed_today (result (compute_stats (ticking 7000)) one_completed) = 1%nat /\
  spec_completed_today 7200 one_completed = 1%nat.
Proof.
  assert (H : completions_by (at_today (ticking 7000)) one_completed) by by_bookings.
  split; [exact H|]. split; [|reflexivity].
  exact (proj1 (completed_today_within_day (ticking 7000) one_completed H)).
Defined.

Lemma complete_failure_atomic_witness :
  ObjectId_of_hex "not-an-id" = None /\
  complete ObjectId_of_hex (ticking 6000) "not-an-id" three_waiting =
  (Error 400 "Invalid ID", three_waiting).
Proof.
  assert (H : ObjectId_of_hex "not-an-id" = None) by reflexivity.
  split; [exact H|].
  exact (proj1 (complete_failure_atomic ObjectId_of_hex (ticking 6000) "not-an-id"
                  three_waiting) H).
Defined.

(** * The further properties on concrete stores *)

Lemma request_moves_forward_witness :
  unique_ids three_waiting /\
  Forall2 doc_moves (bookings three_waiting)
    (bookings (handle ObjectId_of_hex three_waiting
                 (ReqSearch (ticking 5000) (Some {[ "booking_id" := VStr "b3" ]})))).
Proof.
  assert (Hu : unique_ids three_waiting) by (unfold unique_ids; by_decide).
  split; [exact Hu|].
  exact (request_moves_forward ObjectId_of_hex three_waiting
           (ReqSearch (ticking 5000) (Some {[ "booking_id" := VStr "b3" ]})) Hu).
Defined.

Lemma status_never_moves_back_witness :
  unique_ids three_waiting /\
  Forall2 doc_history (bookings three_waiting)
    (bookings (serve ObjectId_of_hex
                 [ReqSearch (ticking 5000) (Some {[ "booking_id" := VStr "b3" ]});
                  ReqComplete (ticking 6000) id1; ReqStats (ticking 7000)]
                 three_waiting)).
Proof.
  assert (Hu : unique_ids three_waiting) by (unfold unique_ids; by_decide).
  split; [exact Hu|].
  exact (proj1 (status_never_moves_back ObjectId_of_hex
                  [ReqSearch (ticking 5000) (Some {[ "booking_id" := VStr "b3" ]});
                   ReqComplete (ticking 6000) id1; ReqStats (ticking 7000)]
                  three_waiting Hu)).
Defined.

Lemma complete_counts_one_more_witness :
  unique_ids one_in_service /\
  completed_today
    (result (compute_stats (ticking 6000))
       (after (complete ObjectId_of_hex (ticking 6000) id1) one_in_service)) =
  (completed_today (result (compute_stats (ticking 6000)) one_in_service) + 1)%nat.
Proof.
  assert (Hu : unique_ids one_in_service) by (unfold unique_ids; by_decide).
  split; [exact Hu|].
  apply (complete_counts_one_more ObjectId_of_hex (ticking 6000) id1 one_in_service _ Hu).
  vm_compute; reflexivity.
Defined.

Lemma complete_hands_over_witness :
  unique_ids one_in_service /\ single_server one_in_service /\
  in_progress
    (result (compute_stats (ticking 6000))
       (after (complete ObjectId_of_hex (ticking 6000) id1) one_in_service)) =
  entry_of <$> head (sorted_docs (at_key (ticking 6000)) (waiting_docs one_in_service)).
Proof.
  assert (Hu : unique_ids one_in_service) by (unfold unique_ids; by_decide).
  assert (Hs : single_server one_in_service) by (vm_compute; lia).
  split; [exact Hu|]. split; [exact Hs|].
  refine (proj1 (complete_hands_over ObjectId_of_hex (ticking 6000) id1 one_in_service _
                   Hu Hs _)).
  vm_compute; reflexivity.
Defined.

Lemma stream_sees_later_markers_witness :
  let started := (result (stream_start true (ticking 4000)) three_waiting).1 in
  let w1 := after (search (ticking 5000) (Some {[ "booking_id" := VStr "b3" ]})) three_waiting in
  result (stream_poll true (ticking 5800) started) w1 =
  if Z.ltb (result get_latest_update_ts three_waiting) 5101
  then Some (mkDatetime 5101 true, Some (result (compute_stats (ticking 5800)) w1))
  else Some (started, None).
Proof.
  refine (proj1 (stream_sees_later_markers ObjectId_of_hex true
                   (ticking 4000) (ticking 5000) (ticking 5800) three_waiting
                   (or_introl eq_refl))
            (Some {[ "booking_id" := VStr "b3" ]}) (_id (ticket 3 "B3" "waiting")) _).
  vm_compute; reflexivity.
Defined.

Lemma stream_from_epoch_raises_witness :
  updates three_waiting = [] /\
  let started := (result (stream_start false (ticking 4000)) three_waiting).1 in
  result (stream_poll false (ticking 5800) started)
    (after (search (ticking 5000) (Some {[ "booking_id" := VStr "b3" ]})) three_waiting) = None.
Proof.
  split; [reflexivity|].
  refine (proj1 (proj2 (proj2
            (stream_from_epoch_raises ObjectId_of_hex false
               (ticking 4000) (ticking 5000) (ticking 5800) three_waiting
               eq_refl eq_refl)))
            (Some {[ "booking_id" := VStr "b3" ]}) (_id (ticket 3 "B3" "waiting")) _).
  vm_compute; reflexivity.
Defined.

Lemma completion_stamps_the_clock_witness :
  unique_ids one_in_service /\
  completions_by 6000
    (serve ObjectId_of_hex
       [ReqComplete (ticking 6000) id1; ReqStats (ticking 7000)] one_in_service).
Proof.
  assert (Hu : unique_ids one_in_service) by (unfold unique_ids; by_decide).
  split; [exact Hu|].
  refine (proj2 (completion_stamps_the_clock ObjectId_of_hex
                   [ReqComplete (ticking 6000) id1; ReqStats (ticking 7000)]
                   one_in_service Hu) 6000 _ _).
  - by_bookings.
  - repeat constructor; intros t E; vm_compute in E; try discriminate E.
    injection E as <-. lia.
Defined.

Lemma search_again_changes_nothing_witness :
  unique_ids three_waiting /\
  let w1 := after (search (ticking 5000) (Some {[ "booking_id" := VStr "b3" ]})) three_waiting in
  bookings (after (search (ticking 5500) (Some {[ "booking_id" := VStr "b3" ]})) w1) =
  bookings w1.
Proof.
  assert (Hu : unique_ids three_waiting) by (unfold unique_ids; by_decide).
  split; [exact Hu|].
  refine (proj1 (proj2
            (search_again_changes_nothing (ticking 5000) (ticking 5500)
               (Some {[ "booking_id" := VStr "b3" ]})
               (_id (ticket 3 "B3" "waiting")) three_waiting Hu _))).
  vm_compute; reflexivity.
Defined.

Lemma search_only_notifies_witness :
  count_in_progress one_in_service ≠ 0%nat /\
  search (ticking 5000) (Some {[ "booking_id" := VStr "b3" ]}) one_in_service =
  (Ok (_id (ticket 3 "B3" "waiting")), mkWorld (bookings one_in_service) [5101]).
Proof.
  assert (Hb : count_in_progress one_in_service ≠ 0%nat) by by_decide.
  split; [exact Hb|].
  refine (search_only_notifies (ticking 5000) {[ "booking_id" := VStr "b3" ]} "b3"
            (ticket 3 "B3" "waiting") one_in_service _ _ _ _ _ _ Hb).
  - by_decide.
  - reflexivity.
  - by_decide.
  - vm_compute; reflexivity.
  - by_decide.
  - by_decide.
Defined.
